(** * build_dataset_obama: border trimming, white compositing and the
      seeded 80/10/10 train/dev/test split

    A shallow embedding of [milestone_content/build_dataset_obama.py].

    - Python values that can fail are computed in the [outcome] monad
      (a value, or the exception that was raised).
    - Python [float] is IEEE binary64, taken from the Standard Library's
      [SpecFloat] (the executable specification the primitive floats are
      stated against): [0.8 * len(filenames)] is a correctly rounded product
      and [int(...)] a truncation.
    - Python [str] is [string]; slicing, [split] and [endswith] work on its
      list of characters, with Python's index conventions written out.  A
      character is one byte here: a name is taken to be ASCII (Python cuts
      at code points, which are bytes for such names).
    - A PIL image is a record of mode, size and rows of pixels, a pixel being
      the list of its 8-bit band values.  The PIL operations used by the
      script ([Image.new], [getpixel], [ImageChops.difference],
      [ImageChops.add], [getbbox], [crop], [split], [paste]) follow the
      library's C loops, as of Pillow 7.1.0 and later ([getbbox] looks at
      the alpha band alone where there is one).
    - The [random] module is an interface ([PyRuntime]): a seeding function
      and [_randbelow].  [random.shuffle] is the library's Fisher-Yates loop
      over that interface. *)

From Stdlib Require Import ZArith Lia String Ascii List.
From Stdlib Require Import Floats.SpecFloat.
From stdpp Require Import base tactics option list strings sorting gmap.

Local Open Scope Z_scope.

(* ===================================================================== *)
(** * Part I: the program                                                 *)
(* ===================================================================== *)

(** ** Exceptions and the outcome monad *)

Inductive exn : Type :=
| IndexError
| AttributeError
| ValueError
| OverflowError
| FileNotFoundError
| FileExistsError
| IsADirectoryError
| NotADirectoryError
| AssertionError (msg : string).

Inductive outcome (A : Type) : Type :=
| Ok (a : A)
| Raise (e : exn).
Arguments Ok {A} a.
Arguments Raise {A} e.

Global Instance outcome_ret : MRet outcome := λ A a, Ok a.
Global Instance outcome_bind : MBind outcome := λ A B f m,
  match m with
  | Ok a => f a
  | Raise e => Raise e
  end.

Definition is_ok {A} (m : outcome A) : bool :=
  match m with Ok _ => true | Raise _ => false end.

(** ** Python sequences: indexing and slicing *)

(** [l[i]] for a Python int [i]: a negative index counts from the end, an
    index out of range raises [IndexError]. *)
Definition py_index {A} (l : list A) (i : Z) : outcome A :=
  let len := Z.of_nat (length l) in
  let k := if i <? 0 then i + len else i in
  if (k <? 0) || (len <=? k) then Raise IndexError
  else match l !! Z.to_nat k with
       | Some a => Ok a
       | None => Raise IndexError
       end.

(** One bound of a slice, as [PySlice_AdjustIndices] clamps it. *)
Definition py_slice_bound (len i : Z) : Z :=
  if i <? 0 then Z.max 0 (i + len) else Z.min i len.

(** [l[lo:hi]] with step 1; [None] is an omitted bound. *)
Definition py_slice {A} (lo hi : option Z) (l : list A) : list A :=
  let len := Z.of_nat (length l) in
  let a := match lo with Some i => py_slice_bound len i | None => 0 end in
  let b := match hi with Some i => py_slice_bound len i | None => len end in
  take (Z.to_nat (b - a)) (drop (Z.to_nat a) l).

(** ** Python strings *)

Module Str.

Definition chars (s : string) : list ascii := list_ascii_of_string s.
Definition of_chars (l : list ascii) : string := string_of_list_ascii l.

(** [s.endswith(suf)] and [s.startswith(pre)]. *)
Definition endswith (s suf : string) : bool :=
  bool_decide (chars suf `suffix_of` chars s).
Definition startswith (s pre : string) : bool :=
  bool_decide (chars pre `prefix_of` chars s).

(** [s[lo:hi]]. *)
Definition slice (lo hi : option Z) (s : string) : string :=
  of_chars (py_slice lo hi (chars s)).

(** [s.split(sep)] for a one-character separator: the maximal runs between
    separators, empty runs included; never the empty list. *)
Fixpoint split_chars (sep : ascii) (l : list ascii) : list (list ascii) :=
  match l with
  | [] => [[]]
  | c :: l' =>
      if decide (c = sep) then [] :: split_chars sep l'
      else match split_chars sep l' with
           | [] => [[c]]
           | w :: ws => (c :: w) :: ws
           end
  end.
Definition split (sep : ascii) (s : string) : list string :=
  of_chars <$> split_chars sep (chars s).

(** [s.format(x)] for a template with one [{}] field: the text before the
    first [{}], the argument, the text after it. *)
Fixpoint format_chars (t : list ascii) (x : list ascii) : list ascii :=
  match t with
  | "{"%char :: "}"%char :: t' => x ++ t'
  | c :: t' => c :: format_chars t' x
  | [] => []
  end.
Definition format (t x : string) : string :=
  of_chars (format_chars (chars t) (chars x)).

End Str.

(** [os.path.join(a, b)] of [posixpath]: an absolute [b] replaces [a]; a
    separator is inserted unless [a] is empty or already ends with one. *)
Definition path_join (a b : string) : string :=
  if Str.startswith b "/" then b
  else if bool_decide (a = "") || Str.endswith a "/" then a +:+ b
  else a +:+ "/" +:+ b.

(** [os.path.dirname(p)] of [posixpath]: what precedes the last separator,
    without the separators it ends with unless it holds nothing else. *)
Fixpoint drop_until_slash (l : list ascii) : list ascii :=
  match l with
  | [] => []
  | c :: l' => if decide (c = "/"%char) then l else drop_until_slash l'
  end.
Fixpoint drop_slashes (l : list ascii) : list ascii :=
  match l with
  | [] => []
  | c :: l' => if decide (c = "/"%char) then drop_slashes l' else l
  end.
Definition os_path_dirname (p : string) : string :=
  let head := drop_until_slash (reverse (Str.chars p)) in
  Str.of_chars (reverse (match drop_slashes head with
                         | [] => head
                         | stripped => stripped
                         end)).

(** [os.path.basename(p)] of [posixpath]: what follows the last separator. *)
Fixpoint take_until_slash (l : list ascii) : list ascii :=
  match l with
  | [] => []
  | c :: l' => if decide (c = "/"%char) then [] else c :: take_until_slash l'
  end.
Definition os_path_basename (p : string) : string :=
  Str.of_chars (reverse (take_until_slash (reverse (Str.chars p)))).

(** [p.rstrip('/')]: a directory can be named with separators at the end. *)
Definition rstrip_slashes (p : string) : string :=
  Str.of_chars (reverse (drop_slashes (reverse (Str.chars p)))).

(** ** Python floats (IEEE binary64) *)

Module Float64.

Definition prec : Z := 53.
Definition emax : Z := 1024.

(** [float(n)] for an int: the nearest double, [OverflowError] beyond the
    finite range. *)
Definition of_int (n : Z) : outcome spec_float :=
  match binary_normalize prec emax n 0 false with
  | S754_infinity _ => Raise OverflowError
  | f => Ok f
  end.

(** A decimal literal [num/den] is read as the nearest double. *)
Definition literal (num den : Z) : spec_float :=
  SFdiv prec emax (binary_normalize prec emax num 0 false)
                  (binary_normalize prec emax den 0 false).

Definition mul (x y : spec_float) : spec_float := SFmul prec emax x y.

(** [int(x)] for a float: truncation toward zero; infinities raise
    [OverflowError] and NaN raises [ValueError]. *)
Definition to_int (x : spec_float) : outcome Z :=
  match x with
  | S754_zero _ => Ok 0
  | S754_infinity _ => Raise OverflowError
  | S754_nan => Raise ValueError
  | S754_finite s m e =>
      let mag := if e <? 0 then Z.pos m / 2 ^ (- e) else Z.pos m * 2 ^ e in
      Ok (if s then - mag else mag)
  end.

(** [x * n] for a float [x] and an int [n]: [n] is converted first. *)
Definition mul_int (x : spec_float) (n : Z) : outcome spec_float :=
  y ← of_int n; Ok (mul x y).

End Float64.

(** [k] applications of [shr_1] to the mantissa [M]: the quotient by [2^k],
    and a round bit that is only set when the remainder reaches the half. *)
Definition shifted (M k : Z) (mrs : shr_record) : Prop :=
  shr_m mrs = M / 2 ^ k ∧
  (shr_r mrs = true → 0 < k ∧ 2 ^ (k - 1) ≤ M mod 2 ^ k).

(** ** The Python runtime the script relies on, as an interface *)

(** [random_seed] is [random.seed] on an int and gives the state of the
    module's generator; [randbelow g n] is its [_randbelow(n)]: a number
    below [n] and the next state.  [int_of_str] is the builtin [int] applied
    to a [str]. *)
Class PyRuntime (G : Type) : Type := {
  int_of_str : string → outcome Z;
  random_seed : Z → G;
  randbelow : G → nat → nat * G;
  randbelow_lt : ∀ g n, (0 < n)%nat → ((randbelow g n).1 < n)%nat
}.

(** [x[i], x[j] = x[j], x[i]]: both reads come first, then the two stores. *)
Definition swap {A} (x : list A) (i j : nat) : outcome (list A) :=
  match x !! j, x !! i with
  | Some xj, Some xi => Ok (<[j:=xi]> (<[i:=xj]> x))
  | _, _ => Raise IndexError
  end.

(** The loop of [random.shuffle]:
    [for i in reversed(range(1, len(x))): j = randbelow(i + 1); swap]. *)
Fixpoint shuffle_from {G} `{PyRuntime G} {A}
    (i : nat) (g : G) (x : list A) : outcome (list A) * G :=
  match i with
  | O => (Ok x, g)
  | S i' =>
      let '(j, g') := randbelow g (i + 1) in
      match swap x i j with
      | Ok x' => shuffle_from i' g' x'
      | Raise e => (Raise e, g')
      end
  end.

Definition shuffle {G} `{PyRuntime G} {A}
    (g : G) (x : list A) : outcome (list A) * G :=
  shuffle_from (length x - 1)%nat g x.

(** ** PIL images *)

Module PIL.

(** The modes with 8-bit bands that a grey or colour [.png] file, with or
    without alpha, is loaded in.  Palette, bilevel and 16-bit images are
    not modelled (on a 16-bit image [ImageChops.difference] raises
    [ValueError]): what is proved about [trim] is proved for images of these
    four modes. *)
Inductive mode : Type := L | LA | RGB | RGBA.

Global Instance mode_eq_dec : EqDecision mode.
Proof. solve_decision. Defined.

Definition bands (m : mode) : nat :=
  match m with L => 1 | LA => 2 | RGB => 3 | RGBA => 4 end%nat.

(** A pixel is the list of its band values, each an unsigned byte. *)
Definition pixel : Type := list Z.

Record Image : Type := mkImage {
  im_mode : mode;
  im_width : nat;
  im_height : nat;
  im_rows : list (list pixel)
}.

Global Instance Image_eq_dec : EqDecision Image.
Proof. solve_decision. Defined.

(** [im.size] *)
Definition size (im : Image) : nat * nat := (im_width im, im_height im).

(** The storage invariant of a loaded image: [im_height] rows of [im_width]
    pixels, every pixel with one byte per band. *)
Definition wf_pixel (m : mode) (p : pixel) : Prop :=
  length p = bands m ∧ Forall (λ v, 0 ≤ v ≤ 255) p.
Definition wf_image (im : Image) : Prop :=
  length (im_rows im) = im_height im ∧
  Forall (λ row, length row = im_width im ∧ Forall (wf_pixel (im_mode im)) row)
         (im_rows im).

Global Instance wf_image_dec im : Decision (wf_image im).
Proof. unfold wf_image, wf_pixel. apply _. Defined.

(** The pixel stored at column [x] of row [y]. *)
Definition pixel_at (im : Image) (x y : nat) : option pixel :=
  im_rows im !! y ≫= (.!! x).

Definition clip8 (t : Z) : Z :=
  if t <=? 0 then 0 else if t >=? 255 then 255 else t.

(** [im.getpixel((x, y))]: negative coordinates count from the far edge. *)
Definition getpixel (im : Image) (xy : Z * Z) : outcome pixel :=
  let w := Z.of_nat (im_width im) in
  let h := Z.of_nat (im_height im) in
  let x := if xy.1 <? 0 then w + xy.1 else xy.1 in
  let y := if xy.2 <? 0 then h + xy.2 else xy.2 in
  if (0 <=? x) && (x <? w) && (0 <=? y) && (y <? h) then
    match pixel_at im (Z.to_nat x) (Z.to_nat y) with
    | Some p => Ok p
    | None => Raise IndexError
    end
  else Raise IndexError.

(** [Image.new(mode, size, color)]: every pixel is [color], its bands
    clipped to a byte; a colour with the wrong number of bands is refused. *)
Definition new (m : mode) (sz : nat * nat) (color : pixel) : outcome Image :=
  if bool_decide (length color = bands m) then
    Ok (mkImage m sz.1 sz.2 (replicate sz.2 (replicate sz.1 (clip8 <$> color))))
  else Raise ValueError.

(** The [CHOP] loop of [Chops.c]: the images must have as many bands, the
    result has the mode of the first and the smaller of the two sizes, and
    each byte is [operation] clipped to [0..255]. *)
Definition chop (operation : Z → Z → Z) (im1 im2 : Image) : outcome Image :=
  if bool_decide (bands (im_mode im1) = bands (im_mode im2)) then
    Ok (mkImage (im_mode im1)
          (im_width im1 `min` im_width im2)%nat
          (im_height im1 `min` im_height im2)%nat
          (zip_with (zip_with (zip_with (λ a b, clip8 (operation a b))))
             (im_rows im1) (im_rows im2)))
  else Raise ValueError.

(** [ImageChops.difference]: [abs(in1 - in2)]. *)
Definition ImageChops_difference (im1 im2 : Image) : outcome Image :=
  chop (λ a b, Z.abs (a - b)) im1 im2.

(** C's [float] (binary32) for the arithmetic of [ImageChops.add]. *)
Definition fprec : Z := 24.
Definition femax : Z := 128.
Definition float_of_int (n : Z) : spec_float :=
  binary_normalize fprec femax n 0 false.
(** [(int) x] for a C float: truncation toward zero. *)
Definition int_of_float (x : spec_float) : Z :=
  match x with
  | S754_finite s m e =>
      let mag := if e <? 0 then Z.pos m / 2 ^ (- e) else Z.pos m * 2 ^ e in
      if s then - mag else mag
  | _ => 0
  end.

(** [ImageChops.add(im1, im2, scale, offset)]:
    [((int) in1 + (int) in2) / scale + offset], computed in [float]
    ([scale] is a float and [offset] an int) and converted to [int]. *)
Definition add_operation (scale : spec_float) (offset : Z) (a b : Z) : Z :=
  int_of_float
    (SFadd fprec femax
       (SFdiv fprec femax (float_of_int (a + b)) scale)
       (float_of_int offset)).
Definition ImageChops_add (im1 im2 : Image) (scale : spec_float) (offset : Z)
  : outcome Image :=
  chop (add_operation scale offset) im1 im2.

(** One of the bands of the pixel is not zero. *)
Definition nonzero (p : pixel) : bool := existsb (λ v, negb (v =? 0)) p.
Definition nonzero_at (im : Image) (x y : nat) : bool :=
  match pixel_at im x y with
  | Some p => nonzero p
  | None => false
  end.

(** The pixels that count for [getbbox].  [ImagingGetBBox] masks the
    pixel before it tests it: in a mode with an alpha band only that band is
    looked at (Pillow 7.1.0 and later; [alpha_only] is the default of
    [Image.getbbox]), in the other modes every band. *)
Definition alpha_band (m : mode) : option nat :=
  match m with
  | LA => Some 1 | RGBA => Some 3 | L | RGB => None
  end%nat.
Definition counts (m : mode) (p : pixel) : bool :=
  match alpha_band m with
  | Some a => negb (default 0 (p !! a) =? 0)
  | None => nonzero p
  end.
Definition counts_at (im : Image) (x y : nat) : bool :=
  match pixel_at im x y with
  | Some p => counts (im_mode im) p
  | None => false
  end.

(** [ImagingGetBBox]: the four bounds start at [(xsize, -1, 0, 0)]; every
    row is scanned from left to right, a row with data sets the upper bound
    once and moves the lower bound below itself. *)
Definition bbox : Type := Z * Z * Z * Z.

Definition getbbox_pixel (im : Image) (y : nat) (st : Z * Z * bool) (x : nat)
  : Z * Z * bool :=
  let '(b0, b2, has_data) := st in
  if counts_at im x y then
    (if Z.of_nat x <? b0 then Z.of_nat x else b0,
     if Z.of_nat x >=? b2 then Z.of_nat x + 1 else b2,
     true)
  else st.

Definition getbbox_row (im : Image) (bb : bbox) (y : nat) : bbox :=
  let '(b0, b1, b2, b3) := bb in
  let '(b0', b2', has_data) :=
    foldl (getbbox_pixel im y) (b0, b2, false) (seq 0 (im_width im)) in
  if has_data then
    (b0', (if b1 <? 0 then Z.of_nat y else b1), b2', Z.of_nat y + 1)
  else (b0', b1, b2', b3).

(** [im.getbbox()]: [None] when no pixel counts. *)
Definition getbbox (im : Image) : option bbox :=
  let '(b0, b1, b2, b3) :=
    foldl (getbbox_row im) (Z.of_nat (im_width im), -1, 0, 0)
          (seq 0 (im_height im)) in
  if b1 <? 0 then None else Some (b0, b1, b2, b3).

(** [im.crop((x0, y0, x1, y1))], the box being (left, upper, right, lower):
    an image of [x1 - x0] by [y1 - y0] pixels (none when negative), read from
    [im] at the box's offset; what lies outside [im] is zero. *)
Definition crop_pixel (im : Image) (x y : Z) : pixel :=
  if (0 <=? x) && (0 <=? y) then
    default (replicate (bands (im_mode im)) 0)
            (pixel_at im (Z.to_nat x) (Z.to_nat y))
  else replicate (bands (im_mode im)) 0.

Definition crop (im : Image) (box : bbox) : Image :=
  let '(x0, y0, x1, y1) := box in
  let w := Z.to_nat (x1 - x0) in
  let h := Z.to_nat (y1 - y0) in
  mkImage (im_mode im) w h
    ((λ j, (λ i, crop_pixel im (x0 + Z.of_nat i) (y0 + Z.of_nat j))
             <$> seq 0 w) <$> seq 0 h).

(** [im.split()]: one [L] image per band. *)
Definition band_image (im : Image) (c : nat) : Image :=
  mkImage L (im_width im) (im_height im)
    (fmap (M := list) (fmap (M := list) (λ p : pixel, [default 0 (p !! c)]))
          (im_rows im)).
Definition split (im : Image) : list Image :=
  band_image im <$> seq 0 (bands (im_mode im)).

(** [im.convert(mode)] between the four modes: grey from colour is the
    ITU-R 601-2 luma of [Convert.c], a missing alpha is opaque. *)
Definition luma (r g b : Z) : Z :=
  Z.shiftr (r * 19595 + g * 38470 + b * 7471) 16.
Definition grey_alpha (m : mode) (p : pixel) : Z * Z :=
  let v i := default 0 (p !! i) in
  match m with
  | L => (v 0%nat, 255)
  | LA => (v 0%nat, v 1%nat)
  | RGB => (luma (v 0%nat) (v 1%nat) (v 2%nat), 255)
  | RGBA => (luma (v 0%nat) (v 1%nat) (v 2%nat), v 3%nat)
  end.
Definition colour_alpha (m : mode) (p : pixel) : Z * Z * Z * Z :=
  let v i := default 0 (p !! i) in
  match m with
  | L => (v 0%nat, v 0%nat, v 0%nat, 255)
  | LA => (v 0%nat, v 0%nat, v 0%nat, v 1%nat)
  | RGB => (v 0%nat, v 1%nat, v 2%nat, 255)
  | RGBA => (v 0%nat, v 1%nat, v 2%nat, v 3%nat)
  end.
Definition convert_pixel (from to : mode) (p : pixel) : pixel :=
  match to with
  | L => [(grey_alpha from p).1]
  | LA => let '(l, a) := grey_alpha from p in [l; a]
  | RGB => let '(r, g, b, _) := colour_alpha from p in [r; g; b]
  | RGBA => let '(r, g, b, a) := colour_alpha from p in [r; g; b; a]
  end.
Definition convert (im : Image) (to : mode) : Image :=
  mkImage to (im_width im) (im_height im)
    (fmap (M := list) (fmap (M := list) (convert_pixel (im_mode im) to))
          (im_rows im)).

(** Bytes stored per pixel: every multi-band mode uses a 32-bit word. *)
Definition pixelsize (m : mode) : nat :=
  match m with L => 1 | _ => 4 end%nat.

(** [MULDIV255] and [BLEND8] of [Paste.c]. *)
Definition muldiv255 (a b : Z) : Z :=
  let tmp := a * b + 128 in Z.shiftr (Z.shiftr tmp 8 + tmp) 8.
Definition blend8 (mask in1 in2 : Z) : Z :=
  (muldiv255 in1 (255 - mask) + muldiv255 in2 mask) `mod` 256.

(** The band of a mask image that weighs the paste: the only band of an [L]
    mask, the alpha band of one with alpha; an [RGB] mask is refused. *)
Definition mask_band (m : mode) : option nat :=
  match m with
  | L => Some 0 | LA => Some 1 | RGBA => Some 3 | RGB => None
  end%nat.

(** [self.paste(im, mask=mask)] with no box: [im] goes to the upper left
    corner.  A source of another mode is converted first, except an [RGBA]
    source onto an [RGB] image.  Source and mask must have the same size and
    the source must be stored like the destination.  Inside the source's
    extent every band becomes [BLEND8(mask, out, in)]. *)
Definition paste (self im mask : Image) : outcome Image :=
  let im :=
    if bool_decide (im_mode self = im_mode im) then im
    else if bool_decide (im_mode self = RGB) && bool_decide (im_mode im = RGBA)
    then im
    else convert im (im_mode self) in
  if negb (bool_decide (pixelsize (im_mode self) = pixelsize (im_mode im)))
  then Raise ValueError
  else if negb (bool_decide (size mask = size im)) then Raise ValueError
  else match mask_band (im_mode mask) with
  | None => Raise ValueError
  | Some mb =>
      Ok (mkImage (im_mode self) (im_width self) (im_height self)
            (imap (λ y row,
               imap (λ x (out : pixel),
                 match pixel_at im x y, pixel_at mask x y with
                 | Some src, Some m =>
                     imap (λ c o,
                       blend8 (default 0 (m !! mb)) o (default 0 (src !! c)))
                       out
                 | _, _ => out
                 end) row) (im_rows self)))
  end.

End PIL.

(** ** The script *)

(** Lines 28-30 of [trim]: the difference to an image filled with the colour
    of pixel (0, 0), amplified by [ImageChops.add(diff, diff, 2.0, -100)]
    ([2.0] is exactly representable as a C float). *)
Definition amplified_difference (im : PIL.Image) : outcome PIL.Image :=
  corner ← PIL.getpixel im (0, 0);
  bg ← PIL.new (PIL.im_mode im) (PIL.size im) corner;
  diff ← PIL.ImageChops_difference im bg;
  PIL.ImageChops_add diff diff (PIL.float_of_int 2) (-100).

(** [trim] (lines 27-33).  Without a bounding box the function falls off its
    end and returns [None]. *)
Definition trim (im : PIL.Image) : outcome (option PIL.Image) :=
  diff ← amplified_difference im;
  match PIL.getbbox diff with
  | Some box => Ok (Some (PIL.crop im box))
  | None => Ok None
  end.

(** Attribute access and method calls on what [trim] returned: [None] has
    neither [load] nor [size] nor [split]. *)
Definition the_image (v : option PIL.Image) : outcome PIL.Image :=
  match v with
  | Some im => Ok im
  | None => Raise AttributeError
  end.

(** Line 52: [Image.new("RGB", image.size, (255, 255, 255))]. *)
Definition white_background (image : PIL.Image) : outcome PIL.Image :=
  PIL.new PIL.RGB (PIL.size image) [255; 255; 255].

(** Lines 47-53 of [deborder_and_save]: from the opened image to the
    composite that is saved. *)
Definition deborder (opened : PIL.Image) : outcome PIL.Image :=
  image ← trim opened;
  image ← the_image image;
  background ← white_background image;
  mask ← py_index (PIL.split image) 3;
  PIL.paste background image mask.

(** [filename.split('/')[-1]]: the name of a file, without its directories. *)
Definition basename (filename : string) : outcome string :=
  py_index (Str.split "/" filename) (-1).

(** Line 55: [os.path.join(output_dir, filename.split('/')[-1][:-3]) + "jpg"]. *)
Definition output_path (output_dir filename : string) : outcome string :=
  name ← basename filename;
  Ok (path_join output_dir (Str.slice None (Some (-3)) name) +:+ "jpg").

(** The prefix [os.path.join(a, b)] puts before a relative [b]. *)
Definition join_prefix (a : string) : string :=
  if bool_decide (a = "") || Str.endswith a "/" then a else a +:+ "/".

(** Lines 78-83: the two boundaries and the three slices. *)
Definition split_points (n : Z) : outcome (Z * Z) :=
  x1 ← Float64.mul_int (Float64.literal 8 10) n;
  split1 ← Float64.to_int x1;
  x2 ← Float64.mul_int (Float64.literal 9 10) n;
  split2 ← Float64.to_int x2;
  Ok (split1, split2).

Record splits : Type := mkSplits {
  train_filenames : list string;
  dev_filenames : list string;
  test_filenames : list string
}.

Definition partition (filenames : list string) : outcome splits :=
  '(split1, split2) ← split_points (Z.of_nat (length filenames));
  Ok (mkSplits (py_slice None (Some split1) filenames)
               (py_slice (Some split1) (Some split2) filenames)
               (py_slice (Some split2) None filenames)).

(** Line 69: the [.png] entries of the listing, joined to [data_dir]. *)
Definition png_filenames (data_dir : string) (entries : list string)
  : list string :=
  path_join data_dir <$> filter (λ f, Str.endswith f ".png" = true) entries.

(** Lines 69-87.  [g] is the state of the [random] module's generator when
    the script reaches line 74, [entries] what [os.listdir] returned; the
    generator's state after the shuffle is returned with the splits. *)
Definition build_splits {G} `{PyRuntime G}
    (g : G) (seed : string) (data_dir : string) (entries : list string)
  : outcome splits * G :=
  let filenames := png_filenames data_dir entries in
  match int_of_str seed with
  | Raise e => (Raise e, g)
  | Ok s =>
      let g := random_seed s in
      let filenames := merge_sort String.le filenames in
      let '(r, g) := shuffle g filenames in
      match r with
      | Raise e => (Raise e, g)
      | Ok filenames => (partition filenames, g)
      end
  end.

(** ** Vocabulary of the statements about [trim] *)

(** [box] is the bounding box of the pixels of a [w] by [h] image that
    satisfy [P]: it lies in the image, holds every such pixel, and each of
    its four sides touches one. *)
Definition is_bounding_box (P : nat → nat → bool) (w h : nat) (box : PIL.bbox)
  : Prop :=
  let '(x0, y0, x1, y1) := box in
  (0 ≤ x0 ∧ x0 < x1 ∧ x1 ≤ Z.of_nat w) ∧
  (0 ≤ y0 ∧ y0 < y1 ∧ y1 ≤ Z.of_nat h) ∧
  (∀ x y, (x < w)%nat → (y < h)%nat → P x y = true →
          (x0 ≤ Z.of_nat x ∧ Z.of_nat x < x1) ∧
          (y0 ≤ Z.of_nat y ∧ Z.of_nat y < y1)) ∧
  (∃ y, (y < h)%nat ∧ P (Z.to_nat x0) y = true) ∧
  (∃ y, (y < h)%nat ∧ P (Z.to_nat (x1 - 1)) y = true) ∧
  (∃ x, (x < w)%nat ∧ P x (Z.to_nat y0) = true) ∧
  (∃ x, (x < w)%nat ∧ P x (Z.to_nat (y1 - 1)) = true).

(** What the amplification makes of an absolute difference [d]: the sum
    [d + d] divided by the scale 2, moved by the offset -100 and clipped to a
    byte. *)
Definition amplified (d : Z) : Z := PIL.clip8 ((d + d) / 2 - 100).

(** The state of [ImagingGetBBox] after the rows below [k] of [im]: still
    the initial one when none of them holds a pixel that counts, their
    bounding box otherwise. *)
Definition scanned (im : PIL.Image) (k : nat) (bb : PIL.bbox) : Prop :=
  (bb = (Z.of_nat (PIL.im_width im), -1, 0, 0) ∧
   ∀ x y, (x < PIL.im_width im)%nat → (y < k)%nat →
          PIL.counts_at im x y = false) ∨
  (0 ≤ bb.1.1.2 ∧ is_bounding_box (PIL.counts_at im) (PIL.im_width im) k bb).

(** The pixel at [(x, y)] differs from the one at (0, 0). *)
Definition differs_from_corner (im : PIL.Image) (x y : nat) : bool :=
  match PIL.pixel_at im x y, PIL.pixel_at im 0 0 with
  | Some p, Some corner => negb (bool_decide (p = corner))
  | _, _ => false
  end.

(** Some band of the pixel at [(x, y)] is more than 100 away from the same
    band of the pixel at (0, 0). *)
Definition off_background (im : PIL.Image) (x y : nat) : bool :=
  match PIL.pixel_at im x y, PIL.pixel_at im 0 0 with
  | Some p, Some corner =>
      existsb (λ vb : Z * Z, 100 <? Z.abs (vb.1 - vb.2)) (zip p corner)
  | _, _ => false
  end.

(** The band [k] of the pixel at [(x, y)] is more than 100 away from the
    same band of the pixel at (0, 0). *)
Definition far_band (im : PIL.Image) (k x y : nat) : bool :=
  match PIL.pixel_at im x y, PIL.pixel_at im 0 0 with
  | Some p, Some corner =>
      100 <? Z.abs (default 0 (p !! k) - default 0 (corner !! k))
  | _, _ => false
  end.

(** The pixels [trim] keeps inside its box: in an image with an alpha band
    those whose alpha is more than 100 away from the alpha of the pixel at
    (0, 0), whatever their colour; in an image without, those with some band
    more than 100 away from the corner's. *)
Definition stands_out (im : PIL.Image) (x y : nat) : bool :=
  match PIL.alpha_band (PIL.im_mode im) with
  | Some a => far_band im a x y
  | None => off_background im x y
  end.

(** ** The file system, the console and the generator: the script's world

    The world maps a name, as the script spells it, to what is found under
    that name: a directory, an image file, or a file that [save] wrote.  Two
    spellings of one path are two names; the script itself goes from a
    directory to what is in it with [os.path.join] alone.  There are no
    permissions: what is there can be read, and a directory can be written
    to. *)

Record world (G : Type) : Type := mkWorld {
  (** directories, each with what [os.listdir] returns for it *)
  w_dirs : gmap string (list string);
  (** image files, each with what [Image.open] decodes from it *)
  w_images : gmap string PIL.Image;
  (** files written by [save]: the image given to the JPEG encoder and the
      quality; a file is in one of the two maps *)
  w_saved : gmap string (PIL.Image * Z);
  (** lines printed so far *)
  w_stdout : list string;
  (** state of the [random] module's generator *)
  w_rng : G
}.
Arguments mkWorld {G}.
Arguments w_dirs {G}.
Arguments w_images {G}.
Arguments w_saved {G}.
Arguments w_stdout {G}.
Arguments w_rng {G}.

(** A statement: it runs in a world and leaves a world, with a value or the
    exception that stopped it. *)
Definition prog (G A : Type) : Type := world G → outcome A * world G.

Global Instance prog_ret {G} : MRet (prog G) := λ A a w, (Ok a, w).
Global Instance prog_bind {G} : MBind (prog G) := λ A B f m w,
  match m w with
  | (Ok a, w') => f a w'
  | (Raise e, w') => (Raise e, w')
  end.

Definition lift {G A} (m : outcome A) : prog G A := λ w, (m, w).

Definition print {G} (line : string) : prog G unit := λ w,
  (Ok tt, mkWorld (w_dirs w) (w_images w) (w_saved w)
                  (w_stdout w ++ [line]) (w_rng w)).

Definition os_path_isdir {G} (p : string) : prog G bool := λ w,
  (Ok (bool_decide (is_Some (w_dirs w !! p))), w).

Definition os_path_exists {G} (p : string) : prog G bool := λ w,
  (Ok (bool_decide (is_Some (w_dirs w !! p))
       || bool_decide (is_Some (w_images w !! p))
       || bool_decide (is_Some (w_saved w !! p))), w).

Definition os_listdir {G} (p : string) : prog G (list string) := λ w,
  match w_dirs w !! p with
  | Some entries => (Ok entries, w)
  | None => (Raise FileNotFoundError, w)
  end.

(** A name that is new in a directory is added to its listing (at the end
    here; [os.listdir] promises no order).  The directory is looked up under
    the name [os.path.dirname] gives; the current directory, for a name
    without a directory part, has no listing in the world. *)
Definition add_entry (dir name : string) (dirs : gmap string (list string))
  : gmap string (list string) :=
  alter (λ entries, if bool_decide (name ∈ entries) then entries
                    else entries ++ [name]) dir dirs.

(** [os.mkdir(p)]: a name in use gives [FileExistsError]; otherwise an empty
    directory is made and listed in its parent.  The parent is not looked
    for: where it is missing, the real call raises [FileNotFoundError] and
    the script stops there, having done no more than up to this call. *)
Definition os_mkdir {G} (p : string) : prog G unit := λ w,
  if bool_decide (is_Some (w_dirs w !! p))
     || bool_decide (is_Some (w_images w !! p))
     || bool_decide (is_Some (w_saved w !! p))
  then (Raise FileExistsError, w)
  else
    let name := rstrip_slashes p in
    (Ok tt, mkWorld (<[p := []]> (add_entry (os_path_dirname name)
                                            (os_path_basename name) (w_dirs w)))
                    (w_images w) (w_saved w) (w_stdout w) (w_rng w)).

(** [Image.open(filename)] followed by the decoding that the first access
    to the pixels triggers.  A file that [save] wrote is not an image file
    of the world: what the decoder would make of it is not modelled, and
    the script never opens one (it opens names that end with [.png] and
    writes names that end with [jpg]). *)
Definition Image_open {G} (filename : string) : prog G PIL.Image := λ w,
  match w_images w !! filename with
  | Some im => (Ok im, w)
  | None =>
      if bool_decide (is_Some (w_dirs w !! filename))
      then (Raise IsADirectoryError, w)
      else (Raise FileNotFoundError, w)
  end.

(** [im.save(path, 'JPEG', quality=quality)].  The file is opened for
    writing first: a directory cannot be opened, and the directory the file
    goes to has to be there (the current one when [path] names none).  The
    file then replaces whatever file was at [path], and is listed in its
    directory.  The encoder's own limit (65500 pixels a side) is not
    modelled. *)
Definition save_jpeg {G} (path : string) (im : PIL.Image) (quality : Z)
  : prog G unit := λ w,
  let dir := os_path_dirname path in
  if bool_decide (is_Some (w_dirs w !! path)) then (Raise IsADirectoryError, w)
  else if bool_decide (dir = "") || bool_decide (is_Some (w_dirs w !! dir)) then
    (Ok tt, mkWorld (add_entry dir (os_path_basename path) (w_dirs w))
                    (delete path (w_images w))
                    (<[path := (im, quality)]> (w_saved w))
                    (w_stdout w) (w_rng w))
  else if bool_decide (is_Some (w_images w !! dir))
          || bool_decide (is_Some (w_saved w !! dir))
  then (Raise NotADirectoryError, w)
  else (Raise FileNotFoundError, w).

(** [for x in xs: body(x)]; an exception ends the loop. *)
Fixpoint for_each {G A} (xs : list A) (body : A → prog G unit) : prog G unit :=
  match xs with
  | [] => mret tt
  | x :: xs' => body x ≫= λ _, for_each xs' body
  end.

(** [deborder_and_save] (lines 43-55); [size] is not used. *)
Definition deborder_and_save {G} (filename output_dir : string) : prog G unit :=
  image ← Image_open filename;
  background ← lift (deborder image);
  path ← lift (output_path output_dir filename);
  save_jpeg path background 100.

Record arguments : Type := mkArguments {
  data_dir : string;
  output_dir : string;
  seed : string
}.

(** The defaults of the argument parser (lines 38-40). *)
Definition default_arguments : arguments :=
  mkArguments "data/spectrograms" "data/altered_spectrograms" "1".

Definition filenames_of (s : splits) (split : string) : outcome (list string) :=
  if bool_decide (split = "train") then Ok (train_filenames s)
  else if bool_decide (split = "dev") then Ok (dev_filenames s)
  else if bool_decide (split = "test") then Ok (test_filenames s)
  else Raise IndexError.

(** The body of the script (lines 60-106). *)
Definition main {G} `{PyRuntime G} (args : arguments) : prog G unit :=
  isdir ← os_path_isdir (data_dir args);
  _ ← lift (if isdir : bool then Ok tt
            else Raise (AssertionError
                   (Str.format "Couldn't find the dataset at {}" (data_dir args))));
  entries ← os_listdir (data_dir args);
  filenames ← (λ w,
      let '(r, g) := build_splits (w_rng w) (seed args) (data_dir args) entries in
      (r, mkWorld (w_dirs w) (w_images w) (w_saved w) (w_stdout w) g));
  present ← os_path_exists (output_dir args);
  _ ← (if present : bool
       then print (Str.format "Warning: output dir {} already exists"
                              (output_dir args))
       else os_mkdir (output_dir args));
  _ ← for_each ["train"; "dev"; "test"] (λ split,
      let output_dir_split :=
        path_join (output_dir args) (Str.format "{}_spec" split) in
      present ← os_path_exists output_dir_split;
      _ ← (if present : bool
           then print (Str.format "Warning: dir {} already exists"
                                  output_dir_split)
           else os_mkdir output_dir_split);
      _ ← print (Str.format
                   (Str.format "Processing {} data, saving preprocessed data to {}"
                               split)
                   output_dir_split);
      names ← lift (filenames_of filenames split);
      for_each names (λ filename, deborder_and_save filename output_dir_split));
  print "Done building dataset".

(** ** Vocabulary of the statements about the script's runs *)

(** From [w] to [w'] nothing was touched but files named [...jpg]: every
    other image file is what it was, every directory is still a directory
    that lists what it listed (and possibly more), every file that was saved
    is still a saved file (possibly written again), and the console only got
    longer. *)
Definition world_le {G} (w w' : world G) : Prop :=
  (∀ p, Str.endswith p "jpg" = false → w_images w' !! p = w_images w !! p) ∧
  (∀ p entries, w_dirs w !! p = Some entries →
     ∃ entries', w_dirs w' !! p = Some entries' ∧ entries ⊆ entries') ∧
  (∀ p, is_Some (w_saved w !! p) → is_Some (w_saved w' !! p)) ∧
  w_stdout w `prefix_of` w_stdout w'.

(** The saved files after a sequence of [save] calls, first call first. *)
Definition save_all (saved : gmap string (PIL.Image * Z))
    (items : list (string * (PIL.Image * Z))) : gmap string (PIL.Image * Z) :=
  foldl (λ m item, <[item.1 := item.2]> m) saved items.

(** [item] is what [deborder_and_save filename dir] writes when the image
    files are [images]: the composite of the opened image, at the output
    path, with quality 100. *)
Definition written_for (images : gmap string PIL.Image) (dir filename : string)
    (item : string * (PIL.Image * Z)) : Prop :=
  ∃ im bg, images !! filename = Some im ∧ deborder im = Ok bg ∧
           output_path dir filename = Ok item.1 ∧ item.2 = (bg, 100).

(** The directory of a split (line 96). *)
Definition split_dir (args : arguments) (split : string) : string :=
  path_join (output_dir args) (Str.format "{}_spec" split).

(** ** A small runtime and small inputs, to run the definitions on

    The generator is a linear congruential one and [int] reads decimal
    digits after an optional sign (the builtin also takes blanks and
    underscores); the theorems are stated for every runtime. *)

Module Demo.

Fixpoint digits_value (acc : Z) (l : list ascii) : option Z :=
  match l with
  | [] => Some acc
  | c :: l' =>
      let n := Z.of_N (N_of_ascii c) in
      if (48 <=? n) && (n <=? 57) then digits_value (10 * acc + (n - 48)) l'
      else None
  end.

Definition unsigned_decimal (l : list ascii) : outcome Z :=
  match l with
  | [] => Raise ValueError
  | _ => match digits_value 0 l with
         | Some n => Ok n
         | None => Raise ValueError
         end
  end.

Definition decimal (s : string) : outcome Z :=
  match Str.chars s with
  | "-"%char :: l => n ← unsigned_decimal l; Ok (- n)
  | "+"%char :: l => unsigned_decimal l
  | l => unsigned_decimal l
  end.

Definition lcg_below (g : Z) (n : nat) : nat * Z :=
  (Z.to_nat ((g / 65536) `mod` Z.of_nat n),
   (g * 1103515245 + 12345) `mod` 2147483648).

Lemma lcg_below_lt g n : (0 < n)%nat → ((lcg_below g n).1 < n)%nat.
Proof.
  intros Hn. unfold lcg_below. simpl.
  pose proof (Z.mod_pos_bound (g / 65536) (Z.of_nat n)). lia.
Qed.

Global Instance lcg_runtime : PyRuntime Z := {|
  int_of_str := decimal;
  random_seed := λ s, Z.abs s;
  randbelow := lcg_below;
  randbelow_lt := lcg_below_lt
|}.

Definition ten_entries : list string :=
  ["img3.png"; "img0.png"; "notes.txt"; "img9.png"; "img1.png"; "img7.png";
   "img2.png"; "img8.png"; "img5.png"; "img4.png"; "img6.png"].

(** A 4 x 3 [RGBA] image: a transparent white border around two opaque
    pixels, one dark and one only slightly off the corner colour. *)
Definition framed : PIL.Image :=
  let bgp := [255; 255; 255; 0] in
  PIL.mkImage PIL.RGBA 4 3
    [ [bgp; bgp; bgp; bgp];
      [bgp; [250; 250; 250; 40]; [10; 20; 30; 255]; bgp];
      [bgp; bgp; bgp; bgp] ].

(** A 2 x 2 [RGBA] image of one colour. *)
Definition blank : PIL.Image :=
  PIL.mkImage PIL.RGBA 2 2
    [ [[255; 255; 255; 0]; [255; 255; 255; 0]];
      [[255; 255; 255; 0]; [255; 255; 255; 0]] ].

(** A 3 x 1 [RGBA] image: a transparent white corner, a transparent black
    pixel and an opaque white one. *)
Definition ghost : PIL.Image :=
  PIL.mkImage PIL.RGBA 3 1
    [ [[255; 255; 255; 0]; [0; 0; 0; 0]; [255; 255; 255; 255]] ].

(** A 2 x 1 [RGBA] image without transparency: black next to white. *)
Definition opaque : PIL.Image :=
  PIL.mkImage PIL.RGBA 2 1 [ [[0; 0; 0; 255]; [255; 255; 255; 255]] ].

(** A 3 x 1 [L] image: the corner, a pixel 50 away from it, one 200 away. *)
Definition grey_strip : PIL.Image :=
  PIL.mkImage PIL.L 3 1 [ [[0]; [50]; [200]] ].

Definition small_world : world Z :=
  mkWorld {[ "data" := ["a.png"; "b.png"] ]}
          {[ "data/a.png" := framed; "data/b.png" := blank ]}
          ∅ [] 0.

(** A 2 x 1 [RGBA] image: a transparent white pixel and an opaque black one. *)
Definition dot : PIL.Image :=
  PIL.mkImage PIL.RGBA 2 1 [ [[255; 255; 255; 0]; [0; 0; 0; 255]] ].

(** A world in which the script runs to its end. *)
Definition two_pictures : world Z :=
  mkWorld {[ "data" := ["a.png"; "notes.txt"; "b.png"] ]}
          {[ "data/a.png" := framed; "data/b.png" := dot ]}
          ∅ [] 0.

Definition two_pictures_arguments : arguments :=
  mkArguments "data" "out" "1".

(** The same pictures, with an image file already at one of the output
    paths. *)
Definition stale_output : world Z :=
  mkWorld {[ "data" := ["a.png"; "notes.txt"; "b.png"];
             "out" := ["train_spec"];
             "out/train_spec" := ["b.jpg"] ]}
          {[ "data/a.png" := framed; "data/b.png" := dot;
             "out/train_spec/b.jpg" := blank ]}
          ∅ [] 0.

End Demo.

(* ===================================================================== *)
(** * Part II: what the program guarantees                                *)
(* ===================================================================== *)

(** ** Binary64 rounding of [0.8 * n] and [0.9 * n] *)

Section FloatFacts.


Lemma digits2_pos_bounds (p : positive) :
  2 ^ (Z.pos (digits2_pos p) - 1) ≤ Z.pos p < 2 ^ Z.pos (digits2_pos p).
Proof.
  induction p as [p IH|p IH|]; simpl digits2_pos.
  - rewrite Pos2Z.inj_succ.
    replace (Z.succ (Z.pos (digits2_pos p)) - 1) with (Z.succ (Z.pos (digits2_pos p) - 1)) by lia.
    rewrite !Z.pow_succ_r by lia. lia.
  - rewrite Pos2Z.inj_succ.
    replace (Z.succ (Z.pos (digits2_pos p)) - 1) with (Z.succ (Z.pos (digits2_pos p) - 1)) by lia.
    rewrite !Z.pow_succ_r by lia. lia.
  - simpl. lia.
Qed.

Lemma digits2_pos_unique (p : positive) (d : Z) :
  2 ^ (d - 1) ≤ Z.pos p < 2 ^ d → Z.pos (digits2_pos p) = d.
Proof.
  intros [Hlo Hhi]. pose proof (digits2_pos_bounds p) as [Hlo' Hhi'].
  assert (0 < d). { destruct (Z.lt_ge_cases 0 d); [done|]. rewrite (Z.pow_neg_r 2 (d-1)) in Hlo by lia.
    assert (2 ^ d ≤ 1); [|lia]. destruct (Z.eq_dec d 0) as [->|]; [simpl; lia|]. rewrite Z.pow_neg_r; lia. }
  destruct (Z.lt_trichotomy (Z.pos (digits2_pos p)) d) as [Hlt|[?|Hgt]]; [|done|].
  - assert (2 ^ Z.pos (digits2_pos p) ≤ 2 ^ (d - 1)) by (apply Z.pow_le_mono_r; lia). lia.
  - assert (2 ^ d ≤ 2 ^ (Z.pos (digits2_pos p) - 1)) by (apply Z.pow_le_mono_r; lia). lia.
Qed.

Lemma iter_pos_nat {A} (f : A → A) (n : positive) (x : A) :
  SpecFloat.iter_pos f n x = Nat.iter (Pos.to_nat n) f x.
Proof.
  revert x. induction n as [n IH|n IH|]; intros x; simpl SpecFloat.iter_pos.
  - rewrite !IH, Pos2Nat.inj_xI. 
    replace (2 * Pos.to_nat n)%nat with (Pos.to_nat n + Pos.to_nat n)%nat by lia.
    rewrite <- Nat.iter_succ_r, <- Nat.iter_add. f_equal. lia.
  - rewrite !IH, Pos2Nat.inj_xO.
    replace (2 * Pos.to_nat n)%nat with (Pos.to_nat n + Pos.to_nat n)%nat by lia.
    by rewrite Nat.iter_add.
  - done.
Qed.


Lemma shr_1_shifted (M k : Z) (mrs : shr_record) :
  0 ≤ M → 0 ≤ k → shifted M k mrs → shifted M (k + 1) (shr_1 mrs).
Proof.
  intros HM Hk [Hm Hr]. destruct mrs as [m r s]. simpl in Hm, Hr.
  assert (Hpow : 0 < 2 ^ k) by (apply Z.pow_pos_nonneg; lia).
  assert (Hdiv : M / 2 ^ (k + 1) = m / 2).
  { rewrite Z.pow_add_r, Z.pow_1_r by lia. rewrite <- Z.div_div by lia. by rewrite Hm. }
  assert (Hmod : M mod 2 ^ (k + 1) = M mod 2 ^ k + 2 ^ k * (m mod 2)).
  { rewrite Z.pow_add_r, Z.pow_1_r by lia. rewrite Z.rem_mul_r by lia. by rewrite Hm. }
  assert (Hm0 : 0 ≤ m) by (rewrite Hm; apply Z.div_pos; lia).
  assert (Hrem : 0 ≤ M mod 2 ^ k) by (apply Z.mod_pos_bound; lia).
  unfold shifted. replace (k + 1 - 1) with k by lia. rewrite Hdiv, Hmod.
  destruct m as [|[p|p|]|p]; simpl shr_1; simpl shr_m; simpl shr_r.
  - split; [done|discriminate].
  - assert (Z.pos p~1 / 2 = Z.pos p ∧ Z.pos p~1 `mod` 2 = 1) as [-> ->]
      by (rewrite Pos2Z.inj_xI; split; Z.div_mod_to_equations; lia).
    split; [done|]. intros _. lia.
  - assert (Z.pos p~0 / 2 = Z.pos p) as ->
      by (rewrite Pos2Z.inj_xO; Z.div_mod_to_equations; lia).
    split; [done|discriminate].
  - split; [done|]. intros _. change (1 `mod` 2) with 1. lia.
  - lia.
Qed.

Lemma iter_shr_1_shifted (M : Z) (n : nat) :
  0 ≤ M →
  shifted M (Z.of_nat n) (Nat.iter n shr_1 (Build_shr_record M false false)).
Proof.
  intros HM. induction n as [|n IH].
  - split; simpl; [by rewrite Z.div_1_r|discriminate].
  - rewrite Nat2Z.inj_succ, <- Z.add_1_r. simpl Nat.iter.
    apply shr_1_shifted; [done|lia|done].
Qed.

Lemma shr_shifted (M e n : Z) :
  0 ≤ M → 0 < n →
  ∃ mrs, shr (Build_shr_record M false false) e n = (mrs, e + n) ∧
         shifted M n mrs.
Proof.
  intros HM Hn. destruct n as [|p|p]; [lia| |lia].
  eexists. split; [reflexivity|].
  rewrite iter_pos_nat. rewrite <- (positive_nat_Z p) at 1.
  by apply iter_shr_1_shifted.
Qed.

(** Rounding to nearest moves the quotient up by at most one, and only from
    the half on. *)
Lemma round_nearest_even_shifted (M k : Z) (mrs : shr_record) :
  shifted M k mrs →
  let q1 := round_nearest_even (shr_m mrs) (loc_of_shr_record mrs) in
  q1 = M / 2 ^ k ∨ (q1 = M / 2 ^ k + 1 ∧ 0 < k ∧ 2 ^ (k - 1) ≤ M mod 2 ^ k).
Proof.
  intros [Hm Hr]. destruct mrs as [m [] s]; simpl in *; subst m.
  - specialize (Hr eq_refl).
    destruct s; simpl; [by right|]. destruct (Z.even _); [by left|by right].
  - destruct s; by left.
Qed.


Lemma pow2_split (a b : Z) : 0 ≤ a → 0 ≤ b → 2 ^ (a + b) = 2 ^ a * 2 ^ b.
Proof. intros. by rewrite Z.pow_add_r. Qed.

(** Rounding a mantissa of more than 53 bits to binary64. *)
Lemma binary_round_aux_wide (P : positive) (e : Z) :
  let D := Z.pos (digits2_pos P) in
  53 < D → -1074 ≤ D + e - 53 → e + (D - 53) + 1 ≤ 971 →
  ∃ m' e' q1,
    binary_round_aux 53 1024 false (Z.pos P) e loc_Exact = S754_finite false m' e' ∧
    e ≤ e' ≤ e + (D - 53) + 1 ∧
    2 ^ 52 ≤ Z.pos m' < 2 ^ 53 ∧
    Z.pos m' * 2 ^ (e' - e) = q1 * 2 ^ (D - 53) ∧
    (q1 = Z.pos P / 2 ^ (D - 53) ∨
     (q1 = Z.pos P / 2 ^ (D - 53) + 1 ∧
      2 ^ (D - 53 - 1) ≤ Z.pos P `mod` 2 ^ (D - 53))).
Proof.
  intros D HD Hmin Hmax. set (s := D - 53) in *.
  assert (Hs : 0 < s) by lia.
  unfold binary_round_aux, shr_fexp.
  change (Zdigits2 (Z.pos P)) with D.
  simpl shr_record_of_loc.
  replace (fexp 53 1024 (D + e) - e) with s by (unfold fexp, emin; lia).
  destruct (shr_shifted (Z.pos P) e s) as (mrs & -> & Hsh); [lia..|].
  pose proof (round_nearest_even_shifted _ _ _ Hsh) as Hq1. cbv zeta in Hq1.
  set (q1 := round_nearest_even (shr_m mrs) (loc_of_shr_record mrs)) in *.
  clearbody q1. clear Hsh mrs.
  pose proof (digits2_pos_bounds P) as [Hlo Hhi]. fold D in Hlo, Hhi.
  assert (Hps : 0 < 2 ^ s) by (apply Z.pow_pos_nonneg; lia).
  assert (HD1 : 2 ^ (D - 1) = 2 ^ s * 2 ^ 52).
  { rewrite <- pow2_split by lia. f_equal. lia. }
  assert (HD2 : 2 ^ D = 2 ^ s * 2 ^ 53).
  { rewrite <- pow2_split by lia. f_equal. lia. }
  assert (Hq : 2 ^ 52 ≤ Z.pos P / 2 ^ s < 2 ^ 53).
  { split; [apply Z.div_le_lower_bound|apply Z.div_lt_upper_bound]; lia. }
  assert (Hq1b : 2 ^ 52 ≤ q1 ≤ 2 ^ 53) by lia.
  destruct q1 as [|q1p|q1p]; [lia| |lia].
  unfold Zdigits2. simpl shr_record_of_loc.
  destruct (Z.eq_dec (Z.pos q1p) (2 ^ 53)) as [Heq|Hne].
  - assert (q1p = 9007199254740992%positive) as -> by (injection Heq; done).
    change (Z.pos (digits2_pos 9007199254740992)) with 54.
    replace (fexp 53 1024 (54 + (e + s)) - (e + s)) with 1
      by (unfold fexp, emin; lia).
    simpl shr. cbv iota beta. simpl shr_m. cbv iota.
    replace (e + s + 1 <=? 1024 - 53) with true by lia.
    exists 4503599627370496%positive, (e + s + 1), (2 ^ 53).
    split; [done|]. split; [lia|]. split; [lia|]. split; [|lia].
    replace (e + s + 1 - e) with (s + 1) by lia.
    rewrite pow2_split by lia. lia.
  - rewrite (digits2_pos_unique q1p 53) by (simpl; simpl in Hq1b; lia).
    replace (fexp 53 1024 (53 + (e + s)) - (e + s)) with 0
      by (unfold fexp, emin; lia).
    simpl shr. cbv iota beta. simpl shr_m. cbv iota.
    replace (e + s <=? 1024 - 53) with true by lia.
    exists q1p, (e + s), (Z.pos q1p).
    split; [done|]. split; [lia|]. split; [lia|]. split; [|lia].
    f_equal. f_equal. lia.
Qed.


(** A mantissa of exactly 53 bits is kept as it is. *)
Lemma binary_round_aux_exact (m : positive) (e : Z) :
  Z.pos (digits2_pos m) = 53 → -1074 ≤ e ≤ 971 →
  binary_round_aux 53 1024 false (Z.pos m) e loc_Exact = S754_finite false m e.
Proof.
  intros Hd He. unfold binary_round_aux, shr_fexp, Zdigits2. rewrite Hd.
  replace (fexp 53 1024 (53 + e) - e) with 0 by (unfold fexp, emin; lia).
  simpl. rewrite Hd.
  replace (fexp 53 1024 (53 + e) - e) with 0 by (unfold fexp, emin; lia).
  simpl. by replace (e <=? 1024 - 53) with true by lia.
Qed.

Lemma pos_iter_xO (n j : positive) :
  Z.pos (Pos.iter xO n j) = Z.pos n * 2 ^ Z.pos j.
Proof.
  induction j as [|j IH] using Pos.peano_ind.
  - simpl. lia.
  - rewrite Pos.iter_succ, Pos2Z.inj_xO, IH, Pos2Z.inj_succ, Z.pow_succ_r; lia.
Qed.

(** [float(N)] for [0 < N < 2^53] is exact: a 53-bit mantissa [N * 2^k]
    with exponent [-k]. *)
Lemma of_int_exact (N : Z) :
  0 < N < 2 ^ 53 →
  ∃ mz k, 0 ≤ k ∧ Z.pos mz = N * 2 ^ k ∧ 2 ^ 52 ≤ Z.pos mz < 2 ^ 53 ∧
          Float64.of_int N = Ok (S754_finite false mz (- k)).
Proof.
  intros [HN0 HN]. destruct N as [|n|n]; [lia| |lia].
  pose proof (digits2_pos_bounds n) as [Hlo Hhi].
  set (d := Z.pos (digits2_pos n)) in *.
  assert (Hd1 : 0 < d) by (unfold d; lia).
  assert (Hd : d ≤ 53).
  { destruct (Z.le_gt_cases d 53); [done|].
    assert (2 ^ 53 ≤ 2 ^ (d - 1)) by (apply Z.pow_le_mono_r; lia). lia. }
  unfold Float64.of_int, Float64.prec, Float64.emax, binary_normalize, binary_round.
  fold d.
  replace (fexp 53 1024 (d + 0)) with (d - 53) by (unfold fexp, emin; lia).
  unfold shl_align.
  destruct (d - 53 - 0) as [|j|j] eqn:Hj; [|lia|].
  - assert (d = 53) by lia.
    exists n, 0. rewrite binary_round_aux_exact by (fold d; lia).
    replace (d - 1) with 52 in Hlo by lia. replace d with 53 in Hhi by lia.
    simpl (2 ^ 0). repeat split; (done || lia).
  - assert (Hmz : Z.pos (Pos.iter xO n j) = Z.pos n * 2 ^ (53 - d)).
    { rewrite pos_iter_xO. f_equal. f_equal. lia. }
    assert (Hb : 2 ^ 52 ≤ Z.pos (Pos.iter xO n j) < 2 ^ 53).
    { rewrite Hmz.
      replace (2 ^ 52) with (2 ^ (d - 1) * 2 ^ (53 - d))
        by (rewrite <- pow2_split by lia; f_equal; lia).
      replace (2 ^ 53) with (2 ^ d * 2 ^ (53 - d))
        by (rewrite <- pow2_split by lia; f_equal; lia).
      assert (0 < 2 ^ (53 - d)) by (apply Z.pow_pos_nonneg; lia).
      split; [apply Z.mul_le_mono_nonneg_r|apply Z.mul_lt_mono_pos_r]; lia. }
    exists (Pos.iter xO n j), (53 - d).
    rewrite binary_round_aux_exact; [|apply digits2_pos_unique; simpl; lia|lia].
    replace (- (53 - d)) with (d - 53) by lia.
    repeat split; (done || lia).
Qed.

Lemma round_bracket (P S H q1 X t I : Z) :
  0 < H → S = 2 * H → X = t * S →
  (q1 = P / S ∨ (q1 = P / S + 1 ∧ H ≤ P `mod` S)) →
  I * X ≤ P → 16 * H ≤ X → 16 * P + X < 16 * ((I + 1) * X) →
  I * X ≤ q1 * S < (I + 1) * X.
Proof.
  intros HH HS HX Hq1 Hlo Hulp Hhi.
  assert (HS0 : 0 < S) by lia.
  pose proof (Z.div_mod P S ltac:(lia)) as Hdm.
  pose proof (Z.mod_pos_bound P S HS0) as Hr.
  set (q := P / S) in *. set (r := P `mod` S) in *.
  assert (Hqt : I * t ≤ q).
  { apply Z.div_le_lower_bound; [done|].
    replace (S * (I * t)) with (I * (t * S)) by ring. by rewrite <- HX. }
  assert (HIX : I * X = I * t * S) by (rewrite HX; ring).
  assert (Hmono : I * t * S ≤ q * S) by (apply Z.mul_le_mono_nonneg_r; lia).
  assert (HqS : q * S = P - r) by lia.
  assert (Hup : q1 * S ≤ P + H).
  { destruct Hq1 as [->|[-> Hh]]; [lia|]. rewrite Z.mul_add_distr_r. lia. }
  assert (Hdn : q * S ≤ q1 * S).
  { destruct Hq1 as [->|[-> Hh]]; [lia|]. rewrite Z.mul_add_distr_r. lia. }
  lia.
Qed.

Lemma div_bracket (m U V X R I : Z) :
  0 < U → 0 < V → X = U * V → m * U = R →
  I * X ≤ R < (I + 1) * X → m / V = I.
Proof.
  intros HU HV -> <- [Hlo Hhi].
  assert (I * V ≤ m).
  { apply (Z.mul_le_mono_pos_r _ _ U); [done|]. 
    replace (I * V * U) with (I * (U * V)) by ring. done. }
  assert (m < (I + 1) * V).
  { apply (Z.mul_lt_mono_pos_r U); [done|].
    replace ((I + 1) * V * U) with ((I + 1) * (U * V)) by ring. done. }
  symmetry. apply (Z.div_unique m V I (m - I * V)); lia.
Qed.

Lemma mul_bracket (m E X R I : Z) :
  0 < X → m * (E * X) = R → I * X ≤ R < (I + 1) * X → m * E = I.
Proof.
  intros HX <- [Hlo Hhi].
  assert (I ≤ m * E).
  { apply (Z.mul_le_mono_pos_r _ _ X); [done|]. 
    replace (m * E * X) with (m * (E * X)) by ring. done. }
  assert (m * E < I + 1).
  { apply (Z.mul_lt_mono_pos_r X); [done|].
    replace (m * E * X) with (m * (E * X)) by ring. done. }
  lia.
Qed.

Lemma pow2_le_inv (a b : Z) : 0 ≤ b → 2 ^ a < 2 ^ b → a < b.
Proof.
  intros Hb H. destruct (Z.lt_ge_cases a b); [done|].
  assert (2 ^ b ≤ 2 ^ a) by (apply Z.pow_le_mono_r; lia). lia.
Qed.

Lemma mul_int_to_int (c : positive) (N I : Z) :
  2 ^ 52 ≤ Z.pos c < 2 ^ 53 →
  0 < N < 2 ^ 50 →
  I * 2 ^ 53 ≤ Z.pos c * N →
  16 * (Z.pos c * N) + 2 ^ 53 < 16 * ((I + 1) * 2 ^ 53) →
  (x ← Float64.mul_int (S754_finite false c (-53)) N; Float64.to_int x) = Ok I.
Proof.
  intros Hc HN Hlo Hhi.
  destruct (of_int_exact N) as (mz & k & Hk & Hmz & Hmzb & Hof); [lia|].
  unfold Float64.mul_int. rewrite Hof. simpl.
  unfold Float64.mul, Float64.prec, Float64.emax, SFmul. simpl xorb.
  set (K := 2 ^ k) in *.
  assert (HK : 0 < K) by (apply Z.pow_pos_nonneg; lia).
  set (cn := Z.pos c * N) in *.
  assert (HP : Z.pos (c * mz) = cn * K).
  { rewrite Pos2Z.inj_mul, Hmz. unfold cn. ring. }
  pose proof (digits2_pos_bounds (c * mz)) as [Hdlo Hdhi].
  set (D := Z.pos (digits2_pos (c * mz))) in *.
  set (P := Z.pos (c * mz)) in *.
  assert (HPlo : 2 ^ 104 ≤ P).
  { unfold P. rewrite Pos2Z.inj_mul. change (2 ^ 104) with (2 ^ 52 * 2 ^ 52).
    apply Z.mul_le_mono_nonneg; lia. }
  assert (HPhi : P < 2 ^ 106).
  { unfold P. rewrite Pos2Z.inj_mul. change (2 ^ 106) with (2 ^ 53 * 2 ^ 53).
    apply Z.mul_lt_mono_nonneg; lia. }
  assert (HD104 : 104 < D) by (apply pow2_le_inv; lia).
  assert (HD106 : D - 1 < 106) by (apply pow2_le_inv; lia).
  assert (Hk52 : k < 53).
  { apply pow2_le_inv; [lia|]. fold K.
    assert (K * 1 ≤ K * N) by (apply Z.mul_le_mono_nonneg_l; lia). lia. }
  assert (Hcn : cn < 2 ^ 103).
  { unfold cn. change (2 ^ 103) with (2 ^ 53 * 2 ^ 50).
    apply Z.mul_lt_mono_nonneg; lia. }
  assert (HDk : D - 1 < 103 + k).
  { apply pow2_le_inv; [lia|]. rewrite (pow2_split 103 k) by lia. fold K.
    assert (cn * K < 2 ^ 103 * K) by (apply Z.mul_lt_mono_pos_r; lia). lia. }
  destruct (binary_round_aux_wide (c * mz) (-53 + - k))
    as (m' & e' & q1 & Hbra & [He' _] & _ & HR & Hq1); [fold D; lia..|].
  fold D P in HR, Hq1, Hbra. rewrite Hbra. clear Hbra. set (s := D - 53) in *.
  assert (Hs2 : 0 < 2 ^ (s - 1)) by (apply Z.pow_pos_nonneg; lia).
  assert (Hhalf : 2 ^ s = 2 * 2 ^ (s - 1)).
  { rewrite <- Z.pow_succ_r by lia. f_equal. lia. }
  set (X := 2 ^ (53 + k)).
  assert (HX : X = 2 ^ 53 * K) by (unfold X, K; by rewrite pow2_split by lia).
  assert (HX0 : 0 < X) by (apply Z.pow_pos_nonneg; lia).
  assert (Hbr : I * X ≤ q1 * 2 ^ s < (I + 1) * X).
  { apply (round_bracket P (2 ^ s) (2 ^ (s - 1)) q1 X (2 ^ (53 + k - s)) I);
      [done|done| |done| | |].
    - unfold X. rewrite <- pow2_split by lia. f_equal. lia.
    - rewrite HP, HX.
      replace (I * (2 ^ 53 * K)) with (I * 2 ^ 53 * K) by ring.
      apply Z.mul_le_mono_nonneg_r; lia.
    - replace 16 with (2 ^ 4) by done. rewrite <- pow2_split by lia.
      apply Z.pow_le_mono_r; lia.
    - rewrite HP, HX.
      replace (16 * (cn * K) + 2 ^ 53 * K) with ((16 * cn + 2 ^ 53) * K) by ring.
      replace (16 * ((I + 1) * (2 ^ 53 * K)))
        with (16 * ((I + 1) * 2 ^ 53) * K) by ring.
      apply Z.mul_lt_mono_pos_r; lia. }
  rewrite <- HR in Hbr. clear HR Hq1.
  unfold Float64.to_int. f_equal.
  assert (Hu : 0 < 2 ^ (e' - (-53 + - k))) by (apply Z.pow_pos_nonneg; lia).
  destruct (e' <? 0) eqn:Hneg.
  - apply Z.ltb_lt in Hneg.
    apply (div_bracket (Z.pos m') (2 ^ (e' - (-53 + - k))) (2 ^ (- e')) X
             (Z.pos m' * 2 ^ (e' - (-53 + - k))) I); [done| | |done|done].
    + apply Z.pow_pos_nonneg; lia.
    + unfold X. rewrite <- pow2_split by lia. f_equal. lia.
  - apply Z.ltb_ge in Hneg.
    apply (mul_bracket (Z.pos m') (2 ^ e') X
             (Z.pos m' * 2 ^ (e' - (-53 + - k))) I); [done| |done].
    f_equal. unfold X. rewrite <- pow2_split by lia. f_equal. lia.
Qed.

Lemma literal_0_8 : Float64.literal 8 10 = S754_finite false 7205759403792794 (-53).
Proof. vm_compute. reflexivity. Qed.
Lemma literal_0_9 : Float64.literal 9 10 = S754_finite false 8106479329266893 (-53).
Proof. vm_compute. reflexivity. Qed.

(** Below [2^50] files both boundaries are the exact floors. *)
Lemma split_points_exact (n : Z) :
  0 ≤ n < 2 ^ 50 → split_points n = Ok (8 * n / 10, 9 * n / 10).
Proof.
  intros Hn. unfold split_points. rewrite literal_0_8, literal_0_9.
  destruct (Z.eq_dec n 0) as [->|Hn0]; [reflexivity|].
  pose proof (Z.div_mod (8 * n) 10 ltac:(lia)) as H8.
  pose proof (Z.mod_pos_bound (8 * n) 10 ltac:(lia)) as H8b.
  pose proof (Z.div_mod (9 * n) 10 ltac:(lia)) as H9.
  pose proof (Z.mod_pos_bound (9 * n) 10 ltac:(lia)) as H9b.
  pose proof (mul_int_to_int 7205759403792794 n (8 * n / 10)) as E1.
  pose proof (mul_int_to_int 8106479329266893 n (9 * n / 10)) as E2.
  change (2 ^ 53) with 9007199254740992 in *.
  change (2 ^ 52) with 4503599627370496 in *.
  change (2 ^ 50) with 1125899906842624 in *.
  set (a := 8 * n / 10) in *. set (b := 9 * n / 10) in *.
  assert (E1' := E1 ltac:(lia) ltac:(lia) ltac:(lia) ltac:(lia)).
  assert (E2' := E2 ltac:(lia) ltac:(lia) ltac:(lia) ltac:(lia)).
  clear E1 E2.
  destruct (Float64.mul_int _ n) as [x1|] eqn:Hx1 in E1'; [|done].
  rewrite Hx1. simpl in E1' |- *. rewrite E1'. simpl.
  destruct (Float64.mul_int _ n) as [x2|] eqn:Hx2 in E2'; [|done].
  rewrite Hx2. simpl in E2' |- *. rewrite E2'. reflexivity.
Qed.

End FloatFacts.

(** ** Slices *)

Section Slices.
Context {A : Type}.
Implicit Types l : list A.

Lemma py_slice_to l (a : Z) :
  0 ≤ a ≤ Z.of_nat (length l) → py_slice None (Some a) l = take (Z.to_nat a) l.
Proof.
  intros Ha. unfold py_slice, py_slice_bound.
  replace (a <? 0) with false by lia.
  rewrite Z.min_l by lia. simpl. by rewrite Z.sub_0_r.
Qed.

Lemma py_slice_between l (a b : Z) :
  0 ≤ a ≤ b → b ≤ Z.of_nat (length l) →
  py_slice (Some a) (Some b) l = take (Z.to_nat b - Z.to_nat a) (drop (Z.to_nat a) l).
Proof.
  intros Ha Hb. unfold py_slice, py_slice_bound.
  replace (a <? 0) with false by lia. replace (b <? 0) with false by lia.
  rewrite !Z.min_l by lia. f_equal. lia.
Qed.

Lemma py_slice_from l (b : Z) :
  0 ≤ b ≤ Z.of_nat (length l) → py_slice (Some b) None l = drop (Z.to_nat b) l.
Proof.
  intros Hb. unfold py_slice, py_slice_bound.
  replace (b <? 0) with false by lia. rewrite Z.min_l by lia.
  apply take_ge. rewrite length_drop. lia.
Qed.

(** Cutting at [a ≤ b] gives back the list. *)
Lemma three_slices l (a b : nat) :
  (a ≤ b)%nat → take a l ++ take (b - a) (drop a l) ++ drop b l = l.
Proof.
  intros Hab. rewrite <- (take_drop a l) at 4. f_equal.
  rewrite <- (take_drop (b - a) (drop a l)) at 2. f_equal.
  rewrite drop_drop. f_equal. lia.
Qed.

End Slices.

(** ** The shuffle is a permutation, for every generator *)

Section Shuffle.
Context {G : Type} `{PyRuntime G} {A : Type}.
Implicit Types x : list A.

Lemma swap_Permutation x i j x' : swap x i j = Ok x' → x' ≡ₚ x.
Proof.
  unfold swap. destruct (x !! j) as [xj|] eqn:Hj; [|done].
  destruct (x !! i) as [xi|] eqn:Hi; [|done].
  intros [= <-]. by apply Permutation_insert_swap.
Qed.

Lemma swap_in_range x i j :
  (i < length x)%nat → (j < length x)%nat → ∃ x', swap x i j = Ok x'.
Proof.
  intros Hi Hj. unfold swap.
  destruct (lookup_lt_is_Some_2 x j Hj) as [xj ->].
  destruct (lookup_lt_is_Some_2 x i Hi) as [xi ->]. eauto.
Qed.

Lemma shuffle_from_Permutation i g x :
  (i < length x)%nat ∨ i = 0%nat →
  ∃ x', (shuffle_from i g x).1 = Ok x' ∧ x' ≡ₚ x.
Proof.
  revert g x. induction i as [|i IH]; intros g x Hi; simpl.
  - by exists x.
  - destruct Hi as [Hi|?]; [|done].
    pose proof (randbelow_lt g (S (i + 1)) ltac:(lia)) as Hj.
    destruct (randbelow g (S (i + 1))) as [j g'] eqn:Hr. simpl in Hj.
    destruct (swap_in_range x (S i) j) as [x' Hx']; [lia..|].
    rewrite Hx'. pose proof (swap_Permutation _ _ _ _ Hx') as Hp.
    destruct (IH g' x') as (x'' & Hx'' & Hp'').
    { left. rewrite Hp. lia. }
    exists x''. split; [done|]. by rewrite Hp''.
Qed.

Lemma shuffle_Permutation g x :
  ∃ x', (shuffle g x).1 = Ok x' ∧ x' ≡ₚ x.
Proof.
  apply shuffle_from_Permutation. destruct x; simpl; [by right|left; lia].
Qed.

End Shuffle.

(** ** Listing, sorting *)

Lemma png_filenames_Permutation data_dir entries entries' :
  entries ≡ₚ entries' →
  png_filenames data_dir entries ≡ₚ png_filenames data_dir entries'.
Proof. intros Hp. unfold png_filenames. by rewrite Hp. Qed.

Lemma sort_Permutation_eq (l l' : list string) :
  l ≡ₚ l' → merge_sort String.le l = merge_sort String.le l'.
Proof.
  intros Hp. apply (Sorted_unique String.le).
  - apply Sorted_merge_sort, _.
  - apply Sorted_merge_sort, _.
  - by rewrite !merge_sort_Permutation.
Qed.

(** ** Strings *)

Section Strings.

Lemma chars_of_chars l : Str.chars (Str.of_chars l) = l.
Proof. apply list_ascii_of_string_of_list_ascii. Qed.

Lemma of_chars_chars s : Str.of_chars (Str.chars s) = s.
Proof. apply string_of_list_ascii_of_string. Qed.

Lemma chars_app s1 s2 : Str.chars (s1 +:+ s2) = Str.chars s1 ++ Str.chars s2.
Proof.
  unfold Str.chars. induction s1 as [|c s1 IH]; simpl; [done|]. by rewrite IH.
Qed.

Lemma chars_inj s1 s2 : Str.chars s1 = Str.chars s2 → s1 = s2.
Proof. intros E. by rewrite <- (of_chars_chars s1), E, of_chars_chars. Qed.

Lemma of_chars_app l1 l2 : Str.of_chars (l1 ++ l2) = Str.of_chars l1 +:+ Str.of_chars l2.
Proof. apply chars_inj. by rewrite chars_app, !chars_of_chars. Qed.

Lemma startswith_slash_elem s : Str.startswith s "/" = true → "/"%char ∈ Str.chars s.
Proof.
  unfold Str.startswith. intros Hp%bool_decide_eq_true.
  destruct Hp as [k ->]. simpl. left.
Qed.

Lemma path_join_relative a b :
  Str.startswith b "/" = false → path_join a b = join_prefix a +:+ b.
Proof.
  intros Hb. unfold path_join, join_prefix. rewrite Hb.
  destruct (bool_decide (a = "") || Str.endswith a "/"); [done|].
  apply chars_inj. rewrite !chars_app. by rewrite <- app_assoc.
Qed.

Lemma path_join_inj a b b' :
  Str.startswith b "/" = false → Str.startswith b' "/" = false →
  path_join a b = path_join a b' → b = b'.
Proof.
  intros Hb Hb'. rewrite !path_join_relative by done.
  intros E. apply chars_inj. apply (f_equal Str.chars) in E.
  rewrite !chars_app in E. by apply app_inv_head in E.
Qed.

Lemma png_filenames_NoDup data_dir entries :
  NoDup entries → Forall (λ f, Str.startswith f "/" = false) entries →
  NoDup (png_filenames data_dir entries).
Proof.
  intros Hnd Hrel. unfold png_filenames. apply NoDup_fmap_2_strong.
  - intros f f' [_ Hf]%list_elem_of_filter [_ Hf']%list_elem_of_filter.
    rewrite Forall_forall in Hrel. apply path_join_inj; by apply Hrel.
  - by apply NoDup_filter.
Qed.

(** [l[-1]] is the last element. *)
Lemma py_index_last {A} (l : list A) :
  py_index l (-1) = match last l with Some a => Ok a | None => Raise IndexError end.
Proof.
  unfold py_index. change (-1 <? 0) with true. cbv iota.
  rewrite last_lookup.
  destruct (decide (length l = 0%nat)) as [E|E].
  - rewrite E. by apply length_zero_iff_nil in E as ->.
  - replace (-1 + Z.of_nat (length l) <? 0) with false by lia.
    replace (Z.of_nat (length l) <=? -1 + Z.of_nat (length l)) with false by lia.
    cbv iota. simpl orb. cbv iota.
    replace (Z.to_nat (-1 + Z.of_nat (length l))) with (pred (length l)) by lia.
    by destruct (l !! pred (length l)).
Qed.

Lemma split_chars_no_sep sep w : sep ∉ w → Str.split_chars sep w = [w].
Proof.
  induction w as [|c w IH]; intros Hw; simpl; [done|].
  rewrite not_elem_of_cons in Hw. destruct Hw as [Hc Hw].
  rewrite decide_False by done. by rewrite IH.
Qed.

Lemma split_chars_nonempty sep l : Str.split_chars sep l ≠ [].
Proof.
  destruct l as [|c l]; simpl; [done|].
  destruct (decide (c = sep)); [done|]. by destruct (Str.split_chars sep l).
Qed.

Lemma split_chars_app sep p q :
  Str.split_chars sep (p ++ sep :: q) = Str.split_chars sep p ++ Str.split_chars sep q.
Proof.
  induction p as [|c p IH]; simpl.
  - by rewrite decide_True.
  - destruct (decide (c = sep)); [by rewrite IH|].
    rewrite IH. pose proof (split_chars_nonempty sep p).
    by destruct (Str.split_chars sep p).
Qed.

Lemma split_chars_last_after sep p w :
  sep ∉ w → last (Str.split_chars sep (p ++ sep :: w)) = Some w.
Proof.
  intros Hw. rewrite split_chars_app, (split_chars_no_sep sep w) by done.
  apply last_snoc.
Qed.

Lemma last_occurrence (sep : ascii) l :
  sep ∈ l → ∃ p w, l = p ++ (sep :: w) ∧ sep ∉ w.
Proof.
  induction l as [|c l IH]; [by intros ?%elem_of_nil|].
  intros Hin. destruct (decide (sep ∈ l)) as [Hl|Hl].
  - destruct (IH Hl) as (p & w & -> & Hw). by exists (c :: p), w.
  - apply elem_of_cons in Hin as [->|?]; [|done]. by exists [], l.
Qed.

(** [s.split(sep)[-1]] is what follows the last separator, or all of [s]
    when it has none. *)
Lemma split_chars_last sep l :
  ∃ w, py_index (Str.split_chars sep l) (-1) = Ok w ∧ (sep ∉ w) ∧
       (l = w ∨ ∃ p, l = p ++ (sep :: w)).
Proof.
  rewrite py_index_last. destruct (decide (sep ∈ l)) as [Hl|Hl].
  - destruct (last_occurrence sep l Hl) as (p & w & -> & Hw).
    exists w. rewrite split_chars_last_after by done. eauto.
  - exists l. rewrite split_chars_no_sep by done. eauto.
Qed.


Lemma py_index_fmap {A B} (f : A → B) (l : list A) (i : Z) :
  py_index (f <$> l) i =
  match py_index l i with Ok a => Ok (f a) | Raise e => Raise e end.
Proof.
  unfold py_index. rewrite length_fmap, list_lookup_fmap.
  destruct (_ || _); [done|]. by destruct (l !! _).
Qed.

Lemma basename_chars (filename : string) :
  ∃ w, basename filename = Ok (Str.of_chars w) ∧ ("/"%char ∉ w) ∧
       (Str.chars filename = w ∨ ∃ p, Str.chars filename = p ++ ("/"%char :: w)).
Proof.
  unfold basename, Str.split. rewrite py_index_fmap.
  destruct (split_chars_last "/" (Str.chars filename)) as (w & -> & Hw & Hl).
  by exists w.
Qed.

Lemma basename_after_prefix (a b : string) :
  "/"%char ∉ Str.chars b → basename (join_prefix a +:+ b) = Ok b.
Proof.
  intros Hb. unfold basename, Str.split. rewrite py_index_fmap, py_index_last.
  rewrite chars_app. unfold join_prefix.
  destruct (bool_decide (a = "")) eqn:Ea; simpl.
  - apply bool_decide_eq_true in Ea as ->. simpl.
    rewrite split_chars_no_sep by done. simpl. by rewrite of_chars_chars.
  - destruct (Str.endswith a "/") eqn:Ee.
    + apply bool_decide_eq_true in Ee as [p Hp]. rewrite Hp.
      change (Str.chars "/") with ["/"%char]. rewrite <- app_assoc. simpl.
      rewrite split_chars_last_after by done. by rewrite of_chars_chars.
    + rewrite chars_app. change (Str.chars "/") with ["/"%char].
      rewrite <- app_assoc. simpl.
      rewrite split_chars_last_after by done. by rewrite of_chars_chars.
Qed.

Lemma slice_drop_last3 (s : string) :
  Str.chars (Str.slice None (Some (-3)) s)
  = take (length (Str.chars s) - 3) (Str.chars s).
Proof.
  unfold Str.slice, py_slice, py_slice_bound. rewrite chars_of_chars.
  change (-3 <? 0) with true. cbv iota. rewrite drop_0. f_equal. lia.
Qed.

End Strings.


(** ** The split *)

Section Split.
Context {G : Type} `{PyRuntime G}.

(** Below [2^50] filenames the three slices are cut at the exact floors. *)
Lemma partition_exact (filenames : list string) :
  let n := Z.of_nat (length filenames) in
  n < 2 ^ 50 →
  partition filenames =
    Ok (mkSplits
          (take (Z.to_nat (8 * n / 10)) filenames)
          (take (Z.to_nat (9 * n / 10) - Z.to_nat (8 * n / 10))
                (drop (Z.to_nat (8 * n / 10)) filenames))
          (drop (Z.to_nat (9 * n / 10)) filenames)).
Proof.
  intros n Hn. unfold partition. fold n.
  rewrite split_points_exact by lia. simpl.
  assert (0 ≤ 8 * n / 10 ≤ 9 * n / 10 ∧ 9 * n / 10 ≤ n) as [H8 H9].
  { pose proof (Z.div_mod (8 * n) 10 ltac:(lia)).
    pose proof (Z.mod_pos_bound (8 * n) 10 ltac:(lia)).
    pose proof (Z.div_mod (9 * n) 10 ltac:(lia)).
    pose proof (Z.mod_pos_bound (9 * n) 10 ltac:(lia)). lia. }
  rewrite py_slice_to, py_slice_between, py_slice_from by (fold n; lia).
  done.
Qed.

(** When the seed is an integer, the script reaches the slicing with a
    permutation of the [.png] filenames. *)
Lemma build_splits_shuffled g seed sd data_dir entries :
  int_of_str seed = Ok sd →
  ∃ shuffled g',
    shuffled ≡ₚ png_filenames data_dir entries ∧
    (shuffle (random_seed sd)
             (merge_sort String.le (png_filenames data_dir entries))).1
      = Ok shuffled ∧
    build_splits g seed data_dir entries = (partition shuffled, g').
Proof.
  intros Hsd. unfold build_splits. rewrite Hsd.
  destruct (shuffle_Permutation (random_seed sd)
              (merge_sort String.le (png_filenames data_dir entries)))
    as (shuffled & Hsh & Hp).
  destruct (shuffle _ _) as [r g'] eqn:E. simpl in Hsh. subst r.
  exists shuffled, g'. split; [|done].
  by rewrite Hp, merge_sort_Permutation.
Qed.

(** The splits do not depend on the order of the listing. *)
Lemma build_splits_Permutation g seed data_dir entries entries' :
  entries ≡ₚ entries' →
  build_splits g seed data_dir entries = build_splits g seed data_dir entries'.
Proof.
  intros Hp. unfold build_splits.
  by rewrite (sort_Permutation_eq _ _ (png_filenames_Permutation data_dir _ _ Hp)).
Qed.

(** Nor, once it is seeded, on what the generator was before. *)
Lemma build_splits_reseeded g g' seed data_dir entries :
  (build_splits g seed data_dir entries).1
  = (build_splits g' seed data_dir entries).1.
Proof.
  unfold build_splits. destruct (int_of_str seed); [|done]. done.
Qed.

End Split.

(** Claim C1.  The sizes of the three splits.  With [N] the number of
    [.png] files found, the script produces splits of [floor(0.8 N)],
    [floor(0.9 N) - floor(0.8 N)] and [N - floor(0.9 N)] filenames, [N] in
    all.  The two boundaries are computed in binary64; they are the exact
    floors for every [N] below [2^50], which no directory listing held in
    memory can reach.  The seed has to be an integer for the script to get to
    the split at all. *)
Theorem split_sizes {G : Type} `{PyRuntime G} (g : G)
    (seed data_dir : string) (entries : list string) (sd : Z) :
  let N := Z.of_nat (length (png_filenames data_dir entries)) in
  int_of_str seed = Ok sd →
  N < 2 ^ 50 →
  ∃ s, (build_splits g seed data_dir entries).1 = Ok s ∧
       Z.of_nat (length (train_filenames s)) = 8 * N / 10 ∧
       Z.of_nat (length (dev_filenames s)) = 9 * N / 10 - 8 * N / 10 ∧
       Z.of_nat (length (test_filenames s)) = N - 9 * N / 10 ∧
       (length (train_filenames s) + length (dev_filenames s)
        + length (test_filenames s))%nat = length (png_filenames data_dir entries).
Proof.
  intros N Hsd HN.
  destruct (build_splits_shuffled g seed sd data_dir entries Hsd)
    as (shuffled & g' & Hp & _ & ->).
  assert (Hlen : length shuffled = length (png_filenames data_dir entries))
    by (by rewrite Hp).
  rewrite partition_exact by (rewrite Hlen; done). rewrite Hlen. fold N.
  eexists. split; [done|]. simpl.
  assert (0 ≤ 8 * N / 10 ≤ 9 * N / 10 ∧ 9 * N / 10 ≤ N) as [H8 H9].
  { pose proof (Z.div_mod (8 * N) 10 ltac:(lia)).
    pose proof (Z.mod_pos_bound (8 * N) 10 ltac:(lia)).
    pose proof (Z.div_mod (9 * N) 10 ltac:(lia)).
    pose proof (Z.mod_pos_bound (9 * N) 10 ltac:(lia)). lia. }
  rewrite !length_take, !length_drop, Hlen. fold N. unfold N in *. lia.
Qed.

Lemma split_sizes_witness :
  ∃ s, (build_splits (0 : Z) "1" "data" Demo.ten_entries).1 = Ok s ∧
       Z.of_nat (length (train_filenames s)) = 8 ∧
       Z.of_nat (length (dev_filenames s)) = 1 ∧
       Z.of_nat (length (test_filenames s)) = 1 ∧
       (length (train_filenames s) + length (dev_filenames s)
        + length (test_filenames s))%nat = 10%nat.
Proof.
  exact (split_sizes (0 : Z) "1" "data" Demo.ten_entries 1 eq_refl eq_refl).
Defined.

(** Claim C2.  The three splits partition the input: a filename is an input
    filename exactly when it is in one of the splits, no filename is in two
    of them, and none is repeated within one.  A directory listing holds
    every name once, and no name in it begins with a separator. *)
Theorem split_is_partition {G : Type} `{PyRuntime G} (g : G)
    (seed data_dir : string) (entries : list string) (sd : Z) :
  int_of_str seed = Ok sd →
  NoDup entries →
  Forall (λ f, Str.startswith f "/" = false) entries →
  Z.of_nat (length (png_filenames data_dir entries)) < 2 ^ 50 →
  ∃ s, (build_splits g seed data_dir entries).1 = Ok s ∧
       (∀ f, f ∈ png_filenames data_dir entries ↔
             f ∈ train_filenames s ∨ f ∈ dev_filenames s ∨ f ∈ test_filenames s) ∧
       (∀ f, f ∈ train_filenames s → f ∉ dev_filenames s) ∧
       (∀ f, f ∈ train_filenames s → f ∉ test_filenames s) ∧
       (∀ f, f ∈ dev_filenames s → f ∉ test_filenames s) ∧
       NoDup (train_filenames s) ∧ NoDup (dev_filenames s) ∧
       NoDup (test_filenames s).
Proof.
  intros Hsd Hnd Hrel HN.
  destruct (build_splits_shuffled g seed sd data_dir entries Hsd)
    as (shuffled & g' & Hp & _ & ->).
  assert (Hlen : length shuffled = length (png_filenames data_dir entries))
    by (by rewrite Hp).
  rewrite partition_exact by (rewrite Hlen; done).
  set (n := Z.of_nat (length shuffled)).
  set (a := Z.to_nat (8 * n / 10)). set (b := Z.to_nat (9 * n / 10)).
  assert (Hab : (a ≤ b)%nat).
  { unfold a, b.
    pose proof (Z.div_mod (8 * n) 10 ltac:(lia)).
    pose proof (Z.mod_pos_bound (8 * n) 10 ltac:(lia)).
    pose proof (Z.div_mod (9 * n) 10 ltac:(lia)).
    pose proof (Z.mod_pos_bound (9 * n) 10 ltac:(lia)). lia. }
  eexists. split; [done|]. simpl.
  pose proof (three_slices shuffled a b Hab) as Hcat.
  assert (Hnd' : NoDup (take a shuffled ++ take (b - a) (drop a shuffled)
                        ++ drop b shuffled)).
  { rewrite Hcat, Hp. by apply png_filenames_NoDup. }
  apply NoDup_app in Hnd' as (Hn1 & Hd1 & Hnd').
  apply NoDup_app in Hnd' as (Hn2 & Hd2 & Hn3).
  split.
  { intros f. rewrite <- Hp, <- Hcat at 1. rewrite !elem_of_app. tauto. }
  split.
  { intros f Hf Hf'. apply (Hd1 f Hf). apply elem_of_app. by left. }
  split.
  { intros f Hf Hf'. apply (Hd1 f Hf). apply elem_of_app. by right. }
  done.
Qed.

Lemma split_is_partition_witness :
  ∃ s, (build_splits (0 : Z) "1" "data" Demo.ten_entries).1 = Ok s ∧
       (∀ f, f ∈ png_filenames "data" Demo.ten_entries ↔
             f ∈ train_filenames s ∨ f ∈ dev_filenames s ∨ f ∈ test_filenames s) ∧
       (∀ f, f ∈ train_filenames s → f ∉ dev_filenames s) ∧
       (∀ f, f ∈ train_filenames s → f ∉ test_filenames s) ∧
       (∀ f, f ∈ dev_filenames s → f ∉ test_filenames s) ∧
       NoDup (train_filenames s) ∧ NoDup (dev_filenames s) ∧
       NoDup (test_filenames s).
Proof.
  apply (split_is_partition (0 : Z) "1" "data" Demo.ten_entries 1).
  - reflexivity.
  - apply (bool_decide_unpack _). vm_compute. exact I.
  - apply (bool_decide_unpack _). vm_compute. exact I.
  - reflexivity.
Defined.

(** Claim C3.  Determinism.  Two runs with the same seed over the same
    files, whatever the state of the generator before seeding and whatever
    the order of the two listings, end with the same splits (or the same
    exception). *)
Theorem split_deterministic {G : Type} `{PyRuntime G} (g g' : G)
    (seed data_dir : string) (entries entries' : list string) :
  entries ≡ₚ entries' →
  (build_splits g seed data_dir entries).1
  = (build_splits g' seed data_dir entries').1.
Proof.
  intros Hp. rewrite (build_splits_Permutation g seed data_dir _ _ Hp).
  apply build_splits_reseeded.
Qed.

Lemma split_deterministic_witness :
  (build_splits (0 : Z) "1" "data" Demo.ten_entries).1
  = (build_splits (12345 : Z) "1" "data" (reverse Demo.ten_entries)).1.
Proof.
  apply (split_deterministic (0 : Z) 12345 "1" "data").
  symmetry. apply reverse_Permutation.
Defined.

(** Claim C9.  The order in which the directory is enumerated does not
    matter: two listings of the same files give the same sorted list, hence
    the same shuffle, the same three splits and the same generator state. *)
Theorem split_ignores_listing_order {G : Type} `{PyRuntime G} (g : G)
    (seed data_dir : string) (entries entries' : list string) :
  entries ≡ₚ entries' →
  merge_sort String.le (png_filenames data_dir entries)
    = merge_sort String.le (png_filenames data_dir entries') ∧
  build_splits g seed data_dir entries = build_splits g seed data_dir entries'.
Proof.
  intros Hp. split.
  - by apply sort_Permutation_eq, png_filenames_Permutation.
  - by apply build_splits_Permutation.
Qed.

Lemma split_ignores_listing_order_witness :
  merge_sort String.le (png_filenames "data" Demo.ten_entries)
    = merge_sort String.le (png_filenames "data" (reverse Demo.ten_entries)) ∧
  build_splits (0 : Z) "1" "data" Demo.ten_entries
  = build_splits (0 : Z) "1" "data" (reverse Demo.ten_entries).
Proof.
  apply (split_ignores_listing_order (0 : Z) "1" "data").
  symmetry. apply reverse_Permutation.
Defined.

(** ** The bounding box *)

Section GetBBox.
Variable im : PIL.Image.
Let nz : nat → nat → bool := PIL.counts_at im.

(** One row, scanned over the columns [xs] from the state [(b0, b2, hd)]. *)
Lemma getbbox_pixels_spec (y : nat) (xs : list nat) (b0 b2 : Z) (hd : bool) :
  ∃ b0' b2' hd',
    foldl (PIL.getbbox_pixel im y) (b0, b2, hd) xs = (b0', b2', hd') ∧
    hd' = hd || existsb (λ x, nz x y) xs ∧
    b0' ≤ b0 ∧ b2 ≤ b2' ∧
    (∀ x, x ∈ xs → nz x y = true → b0' ≤ Z.of_nat x ∧ Z.of_nat x < b2') ∧
    (b0' = b0 ∨ ∃ x, x ∈ xs ∧ nz x y = true ∧ b0' = Z.of_nat x) ∧
    (b2' = b2 ∨ ∃ x, x ∈ xs ∧ nz x y = true ∧ b2' = Z.of_nat x + 1).
Proof.
  revert b0 b2 hd. induction xs as [|x xs IH]; intros b0 b2 hd; cbn [foldl existsb].
  - exists b0, b2, hd. rewrite orb_false_r.
    repeat split; try lia; try (by left);
      match goal with Hx : _ ∈ [] |- _ => by apply elem_of_nil in Hx end.
  - assert (Hstep : PIL.getbbox_pixel im y (b0, b2, hd) x =
                    if nz x y
                    then (if Z.of_nat x <? b0 then Z.of_nat x else b0,
                          if Z.of_nat x >=? b2 then Z.of_nat x + 1 else b2, true)
                    else (b0, b2, hd)) by reflexivity.
    rewrite Hstep. clear Hstep.
    destruct (nz x y) eqn:Hnz; cbn [orb].
    + destruct (IH (if Z.of_nat x <? b0 then Z.of_nat x else b0)
                   (if Z.of_nat x >=? b2 then Z.of_nat x + 1 else b2) true)
        as (b0' & b2' & hd' & -> & Hhd & Hle0 & Hle2 & Hin & Hb0 & Hb2).
      exists b0', b2', hd'. split; [done|].
      split; [by rewrite Hhd, orb_true_r|].
      split; [destruct (Z.of_nat x <? b0) eqn:?; lia|].
      split; [destruct (Z.of_nat x >=? b2) eqn:?; lia|].
      split.
      { intros x' [->|Hx']%elem_of_cons Hx'nz; [|by apply Hin].
        destruct (Z.of_nat x <? b0) eqn:?, (Z.of_nat x >=? b2) eqn:?; lia. }
      split.
      { destruct Hb0 as [->|(x' & Hx' & Hx'nz & ->)].
        - destruct (Z.of_nat x <? b0) eqn:?; [|by left].
          right. exists x. split; [left|done].
        - right. exists x'. split; [by right|done]. }
      { destruct Hb2 as [->|(x' & Hx' & Hx'nz & ->)].
        - destruct (Z.of_nat x >=? b2) eqn:?; [|by left].
          right. exists x. split; [left|done].
        - right. exists x'. split; [by right|done]. }
    + destruct (IH b0 b2 hd)
        as (b0' & b2' & hd' & -> & Hhd & Hle0 & Hle2 & Hin & Hb0 & Hb2).
      exists b0', b2', hd'. split; [done|]. split; [done|].
      split; [done|]. split; [done|]. split.
      { intros x' [->|Hx']%elem_of_cons Hx'nz; [congruence|by apply Hin]. }
      split.
      { destruct Hb0 as [->|(x' & Hx' & Hx'nz & ->)]; [by left|].
        right. exists x'. split; [by right|done]. }
      { destruct Hb2 as [->|(x' & Hx' & Hx'nz & ->)]; [by left|].
        right. exists x'. split; [by right|done]. }
Qed.


(** Whether row [y] holds a pixel that counts. *)
Lemma row_has_data (y : nat) :
  existsb (λ x, nz x y) (seq 0 (PIL.im_width im)) = true ↔
  ∃ x, (x < PIL.im_width im)%nat ∧ nz x y = true.
Proof.
  rewrite existsb_exists. split.
  - intros (x & Hx%in_seq & Hnz). exists x. split; [lia|done].
  - intros (x & Hx & Hnz). exists x. split; [apply in_seq; lia|done].
Qed.

Lemma getbbox_row_scanned (k : nat) (bb : PIL.bbox) :
  scanned im k bb → scanned im (S k) (PIL.getbbox_row im bb k).
Proof.
  destruct bb as [[[b0 b1] b2] b3]. unfold scanned. fold nz. intros Hinv.
  unfold PIL.getbbox_row.
  destruct (getbbox_pixels_spec k (seq 0 (PIL.im_width im)) b0 b2 false)
    as (b0' & b2' & hd & -> & Hhd & Hle0 & Hle2 & Hin & Hb0 & Hb2).
  simpl in Hhd.
  assert (Hrow : ∀ x, (x < PIL.im_width im)%nat → nz x k = true →
                      b0' ≤ Z.of_nat x ∧ Z.of_nat x < b2').
  { intros x Hx. apply Hin, elem_of_seq. lia. }
  assert (Hb0' : b0' = b0 ∨ ∃ x, (x < PIL.im_width im)%nat ∧ nz x k = true ∧
                                 b0' = Z.of_nat x).
  { destruct Hb0 as [?|(x & Hx%elem_of_seq & ? & ?)]; [by left|].
    right. exists x. split; [lia|done]. }
  assert (Hb2' : b2' = b2 ∨ ∃ x, (x < PIL.im_width im)%nat ∧ nz x k = true ∧
                                 b2' = Z.of_nat x + 1).
  { destruct Hb2 as [?|(x & Hx%elem_of_seq & ? & ?)]; [by left|].
    right. exists x. split; [lia|done]. }
  clear Hin Hb0 Hb2.
  destruct hd.
  - (* the row has data *)
    symmetry in Hhd. apply row_has_data in Hhd as (x0 & Hx0 & Hnz0).
    destruct (Hrow x0 Hx0 Hnz0) as [Hx0l Hx0r].
    right. destruct Hinv as [[[= -> -> -> ->] Hnone]|[Hb1 Hbox]].
    + change (-1 <? 0) with true. cbv iota. split; [simpl; lia|].
      destruct Hb0' as [?|(xa & Hxa & Hnza & ->)]; [lia|].
      destruct Hb2' as [?|(xb & Hxb & Hnzb & ->)]; [lia|].
      unfold is_bounding_box.
      split; [lia|]. split; [lia|]. split.
      { intros x y Hx Hy Hnz. destruct (decide (y = k)) as [->|Hne].
        - split; [by apply Hrow|lia].
        - rewrite Hnone in Hnz by lia. done. }
      split; [exists k; split; [lia|by rewrite Nat2Z.id]|].
      split.
      { exists k. split; [lia|].
        by replace (Z.to_nat (Z.of_nat xb + 1 - 1)) with xb by lia. }
      split; [exists x0; split; [done|by rewrite Nat2Z.id]|].
      exists x0. split; [done|].
      by replace (Z.to_nat (Z.of_nat k + 1 - 1)) with k by lia.
    + simpl in Hb1. replace (b1 <? 0) with false by lia.
      split; [simpl; lia|].
      unfold is_bounding_box in *.
      destruct Hbox as (Hxr & Hyr & Hcont & (ya & Hya & Hnza) & (yb & Hyb & Hnzb)
                        & (xc & Hxc & Hnzc) & _).
      split.
      { destruct Hb0' as [->|(xa & Hxa & _ & ->)],
                 Hb2' as [->|(xb & Hxb & _ & ->)]; lia. }
      split; [lia|]. split.
      { intros x y Hx Hy Hnz. destruct (decide (y = k)) as [->|Hne].
        - split; [by apply Hrow|lia].
        - destruct (Hcont x y Hx ltac:(lia) Hnz). lia. }
      split.
      { destruct Hb0' as [->|(xa & Hxa & Hnzxa & ->)].
        - exists ya. split; [lia|done].
        - exists k. split; [lia|by rewrite Nat2Z.id]. }
      split.
      { destruct Hb2' as [->|(xb & Hxb & Hnzxb & ->)].
        - exists yb. split; [lia|done].
        - exists k. split; [lia|].
          by replace (Z.to_nat (Z.of_nat xb + 1 - 1)) with xb by lia. }
      split; [by exists xc|].
      exists x0. split; [done|].
      by replace (Z.to_nat (Z.of_nat k + 1 - 1)) with k by lia.
  - (* the row has no data: nothing moves *)
    assert (Hnone : ∀ x, (x < PIL.im_width im)%nat → nz x k = false).
    { intros x Hx. destruct (nz x k) eqn:Hnz; [|done].
      assert (existsb (λ x, nz x k) (seq 0 (PIL.im_width im)) = true)
        by (apply row_has_data; eauto). congruence. }
    assert (b0' = b0) as ->.
    { destruct Hb0' as [?|(x & Hx & Hnz & _)]; [done|].
      rewrite Hnone in Hnz by done. done. }
    assert (b2' = b2) as ->.
    { destruct Hb2' as [?|(x & Hx & Hnz & _)]; [done|].
      rewrite Hnone in Hnz by done. done. }
    destruct Hinv as [[Hbb Hold]|[Hb1 Hbox]].
    + left. split; [done|]. intros x y Hx Hy.
      destruct (decide (y = k)) as [->|Hne]; [by apply Hnone|apply Hold; lia].
    + right. split; [done|]. unfold is_bounding_box in *.
      destruct Hbox as (Hxr & Hyr & Hcont & (ya & Hya & Hnza) & (yb & Hyb & Hnzb)
                        & Hc & Hd).
      split; [done|]. split; [lia|]. split.
      { intros x y Hx Hy Hnz. destruct (decide (y = k)) as [->|Hne].
        - rewrite Hnone in Hnz by done. done.
        - apply Hcont; [done|lia|done]. }
      split; [exists ya; split; [lia|done]|].
      split; [exists yb; split; [lia|done]|]. done.
Qed.

Lemma getbbox_rows_scanned (k : nat) :
  scanned im k (foldl (PIL.getbbox_row im)
                   (Z.of_nat (PIL.im_width im), -1, 0, 0) (seq 0 k)).
Proof.
  induction k as [|k IH].
  - left. fold nz. split; [done|]. intros; lia.
  - rewrite seq_S, foldl_app. simpl. by apply getbbox_row_scanned.
Qed.

(** [getbbox] returns the bounding box of the pixels that count, and [None]
    exactly when there is none. *)
Lemma getbbox_spec :
  match PIL.getbbox im with
  | Some box => is_bounding_box nz (PIL.im_width im) (PIL.im_height im) box
  | None => ∀ x y, (x < PIL.im_width im)%nat → (y < PIL.im_height im)%nat →
                   nz x y = false
  end.
Proof.
  unfold PIL.getbbox. pose proof (getbbox_rows_scanned (PIL.im_height im)) as Hs.
  destruct (foldl _ _ _) as [[[b0 b1] b2] b3].
  destruct Hs as [[[= -> -> -> ->] Hnone]|[Hb1 Hbox]].
  - done.
  - simpl in Hb1. by replace (b1 <? 0) with false by lia.
Qed.

End GetBBox.

(** ** Pixels of the images the script builds *)

Section Pixels.

Lemma clip8_byte v : 0 ≤ v ≤ 255 → PIL.clip8 v = v.
Proof.
  intros Hv. unfold PIL.clip8.
  destruct (v <=? 0) eqn:E0; [lia|]. destruct (v >=? 255) eqn:E1; lia.
Qed.

Lemma clip8_bytes (p : PIL.pixel) :
  Forall (λ v, 0 ≤ v ≤ 255) p → PIL.clip8 <$> p = p.
Proof.
  induction 1 as [|v p Hv _ IH]; [done|]. by rewrite fmap_cons, clip8_byte, IH.
Qed.

(** [ImageChops.add(d, d, 2.0, -100)] on a byte: the float arithmetic is
    exact, checked on each of the 256 values. *)
Lemma add_operation_byte d :
  0 ≤ d ≤ 255 → PIL.add_operation (PIL.float_of_int 2) (-100) d d = d - 100.
Proof.
  intros Hd.
  assert (Hall : forallb (λ d, PIL.add_operation (PIL.float_of_int 2) (-100) d d
                               =? d - 100) (seqZ 0 256) = true)
    by (vm_compute; reflexivity).
  rewrite forallb_forall in Hall. apply Z.eqb_eq, Hall.
  apply list_elem_of_In, elem_of_seqZ. lia.
Qed.

Lemma pixel_at_new m w h c x y :
  length c = PIL.bands m → (x < w)%nat → (y < h)%nat →
  ∃ bg, PIL.new m (w, h) c = Ok bg ∧ PIL.im_mode bg = m ∧
        PIL.im_width bg = w ∧ PIL.im_height bg = h ∧
        PIL.pixel_at bg x y = Some (PIL.clip8 <$> c).
Proof.
  intros Hc Hx Hy. unfold PIL.new. rewrite bool_decide_eq_true_2 by done.
  eexists. split; [done|]. repeat split.
  unfold PIL.pixel_at. simpl. rewrite lookup_replicate_2 by done. simpl.
  by rewrite lookup_replicate_2.
Qed.

Lemma pixel_at_chop op im1 im2 out x y :
  PIL.chop op im1 im2 = Ok out →
  PIL.pixel_at out x y =
    p1 ← PIL.pixel_at im1 x y; p2 ← PIL.pixel_at im2 x y;
    Some (zip_with (λ a b, PIL.clip8 (op a b)) p1 p2).
Proof.
  unfold PIL.chop. destruct (bool_decide _); [|done]. intros [= <-].
  unfold PIL.pixel_at. simpl. rewrite lookup_zip_with.
  destruct (_ !! y) as [ra|]; destruct (_ !! y) as [rb|]; simpl; try done.
  - rewrite lookup_zip_with. destruct (_ !! x); simpl; [|done].
    by destruct (_ !! x).
  - by destruct (_ !! x).
Qed.

Lemma chop_size op im1 im2 out :
  PIL.chop op im1 im2 = Ok out →
  PIL.im_mode out = PIL.im_mode im1 ∧
  PIL.im_width out = (PIL.im_width im1 `min` PIL.im_width im2)%nat ∧
  PIL.im_height out = (PIL.im_height im1 `min` PIL.im_height im2)%nat.
Proof.
  unfold PIL.chop. destruct (bool_decide _); [|done]. by intros [= <-].
Qed.

(** The amplified difference has the size of the image, whatever it holds. *)
Lemma amplified_difference_size im diff :
  amplified_difference im = Ok diff →
  PIL.im_width diff = PIL.im_width im ∧ PIL.im_height diff = PIL.im_height im.
Proof.
  unfold amplified_difference.
  destruct (PIL.getpixel im (0, 0)) as [corner|]; [simpl|done].
  destruct (PIL.new _ _ corner) as [bg|] eqn:Hbg; [simpl|done].
  destruct (PIL.ImageChops_difference im bg) as [d1|] eqn:Hd1; [simpl|done].
  intros Hd2.
  apply chop_size in Hd1 as (_ & Hw1 & Hh1), Hd2 as (_ & Hw2 & Hh2).
  unfold PIL.new in Hbg. destruct (bool_decide _); [|done].
  injection Hbg as <-. simpl in *. lia.
Qed.

(** In a well-formed image every position inside the size holds a pixel
    with one byte per band. *)
Lemma wf_pixel_at im x y :
  PIL.wf_image im → (x < PIL.im_width im)%nat → (y < PIL.im_height im)%nat →
  ∃ p, PIL.pixel_at im x y = Some p ∧ PIL.wf_pixel (PIL.im_mode im) p.
Proof.
  intros [Hh Hrows] Hx Hy. unfold PIL.pixel_at.
  destruct (lookup_lt_is_Some_2 (PIL.im_rows im) y) as [row Hrow]; [lia|].
  rewrite Hrow. simpl.
  rewrite Forall_forall in Hrows.
  destruct (Hrows row) as [Hlen Hpx]; [by eapply list_elem_of_lookup_2|].
  destruct (lookup_lt_is_Some_2 row x) as [p Hp]; [lia|].
  exists p. split; [done|]. rewrite Forall_forall in Hpx.
  apply Hpx. by eapply list_elem_of_lookup_2.
Qed.

Lemma pixel_at_inside im x y p :
  PIL.wf_image im → PIL.pixel_at im x y = Some p →
  (x < PIL.im_width im)%nat ∧ (y < PIL.im_height im)%nat ∧
  PIL.wf_pixel (PIL.im_mode im) p.
Proof.
  intros [Hh Hrows] Hp. unfold PIL.pixel_at in Hp.
  destruct (PIL.im_rows im !! y) as [row|] eqn:Hrow; [simpl in Hp|done].
  rewrite Forall_forall in Hrows.
  destruct (Hrows row) as [Hlen Hpx]; [by eapply list_elem_of_lookup_2|].
  apply lookup_lt_Some in Hrow as Hy. apply lookup_lt_Some in Hp as Hx.
  split; [lia|]. split; [lia|]. rewrite Forall_forall in Hpx.
  apply Hpx. by eapply list_elem_of_lookup_2.
Qed.

End Pixels.

Section Trim.

Lemma amplified_eq d : amplified d = PIL.clip8 (d - 100).
Proof.
  unfold amplified. f_equal. f_equal.
  replace (d + d) with (d * 2) by lia. by rewrite Z.div_mul.
Qed.

Lemma amplified_zero d : amplified d = 0 ↔ d ≤ 100.
Proof.
  rewrite amplified_eq. unfold PIL.clip8.
  destruct (d - 100 <=? 0) eqn:E0; [lia|].
  destruct (d - 100 >=? 255) eqn:E1; lia.
Qed.

(** Difference, then amplification, of two pixels of bytes. *)
Lemma amplify_pixel (p c : PIL.pixel) :
  Forall (λ v, 0 ≤ v ≤ 255) p → Forall (λ v, 0 ≤ v ≤ 255) c →
  let q := zip_with (λ a b, PIL.clip8 (Z.abs (a - b))) p c in
  zip_with (λ a b, PIL.clip8 (PIL.add_operation (PIL.float_of_int 2) (-100) a b))
           q q
  = zip_with (λ v b, amplified (Z.abs (v - b))) p c.
Proof.
  intros Hp. revert c. induction Hp as [|v p Hv _ IH]; intros c Hc; [done|].
  destruct Hc as [|b c Hb Hc]; [done|]. cbn [zip_with]. f_equal; [|by apply IH].
  assert (Hd : 0 ≤ Z.abs (v - b) ≤ 255) by lia.
  rewrite (clip8_byte (Z.abs (v - b))) by done.
  rewrite add_operation_byte by done. by rewrite amplified_eq.
Qed.

Lemma nonzero_amplified (p c : PIL.pixel) :
  PIL.nonzero (zip_with (λ v b, amplified (Z.abs (v - b))) p c)
  = existsb (λ vb : Z * Z, 100 <? Z.abs (vb.1 - vb.2)) (zip p c).
Proof.
  revert c. induction p as [|v p IH]; intros [|b c]; try done.
  unfold PIL.nonzero in *. simpl. rewrite IH. f_equal.
  pose proof (amplified_zero (Z.abs (v - b))).
  destruct (amplified _ =? 0) eqn:E0, (100 <? _) eqn:E1; simpl; lia.
Qed.

Lemma getpixel_origin (im : PIL.Image) (corner : PIL.pixel) :
  (0 < PIL.im_width im)%nat → (0 < PIL.im_height im)%nat →
  PIL.pixel_at im 0 0 = Some corner → PIL.getpixel im (0, 0) = Ok corner.
Proof.
  intros Hw Hh Hc. unfold PIL.getpixel. cbn [fst snd].
  change (0 <? 0) with false. cbv iota. change (0 <=? 0) with true.
  replace (0 <? Z.of_nat (PIL.im_width im)) with true by lia.
  replace (0 <? Z.of_nat (PIL.im_height im)) with true by lia.
  cbn [andb]. change (Z.to_nat 0) with 0%nat. by rewrite Hc.
Qed.

(** The image [trim] takes the bounding box of. *)
Lemma amplified_difference_pixels (im : PIL.Image) :
  PIL.wf_image im → (0 < PIL.im_width im)%nat → (0 < PIL.im_height im)%nat →
  ∃ diff corner,
    amplified_difference im = Ok diff ∧
    PIL.pixel_at im 0 0 = Some corner ∧
    PIL.im_width diff = PIL.im_width im ∧
    PIL.im_height diff = PIL.im_height im ∧
    ∀ x y, PIL.pixel_at diff x y =
           p ← PIL.pixel_at im x y;
           Some (zip_with (λ v b, amplified (Z.abs (v - b))) p corner).
Proof.
  intros Hwf Hw Hh.
  destruct (wf_pixel_at im 0 0 Hwf Hw Hh) as (corner & Hcorner & Hlen & Hbytes).
  pose proof (getpixel_origin im corner Hw Hh Hcorner) as Hget.
  assert (Hnew : ∃ bg, PIL.new (PIL.im_mode im) (PIL.size im) corner = Ok bg ∧
                       PIL.im_mode bg = PIL.im_mode im).
  { unfold PIL.new. rewrite bool_decide_eq_true_2 by done. eauto. }
  destruct Hnew as (bg & Hbg & Hbgm).
  assert (Hd1 : ∃ d1, PIL.ImageChops_difference im bg = Ok d1 ∧
                      PIL.im_mode d1 = PIL.im_mode im).
  { unfold PIL.ImageChops_difference, PIL.chop.
    rewrite bool_decide_eq_true_2 by (by rewrite Hbgm). eauto. }
  destruct Hd1 as (d1 & Hd1 & Hd1m).
  assert (Hd2 : ∃ diff, PIL.ImageChops_add d1 d1 (PIL.float_of_int 2) (-100)
                        = Ok diff).
  { unfold PIL.ImageChops_add, PIL.chop.
    rewrite bool_decide_eq_true_2 by done. eauto. }
  destruct Hd2 as (diff & Hd2).
  assert (Hdiff : amplified_difference im = Ok diff).
  { unfold amplified_difference. rewrite Hget. cbn [mbind outcome_bind].
    rewrite Hbg. cbn [mbind outcome_bind]. rewrite Hd1. done. }
  exists diff, corner. split; [done|]. split; [done|].
  destruct (amplified_difference_size im diff Hdiff) as [Hdw Hdh].
  split; [done|]. split; [done|]. intros x y.
  rewrite (pixel_at_chop _ _ _ _ x y Hd2), (pixel_at_chop _ _ _ _ x y Hd1).
  destruct (PIL.pixel_at im x y) as [p|] eqn:Hp; [|done].
  destruct (pixel_at_inside im x y p Hwf Hp) as (Hx & Hy & _ & Hpb).
  destruct (pixel_at_new (PIL.im_mode im) (PIL.im_width im) (PIL.im_height im)
              corner x y Hlen Hx Hy) as (bg' & Hbg' & _ & _ & _ & Hbgp).
  unfold PIL.size in Hbg. rewrite Hbg in Hbg'. injection Hbg' as <-.
  rewrite Hbgp. cbn [mbind option_bind]. rewrite clip8_bytes by done.
  f_equal. by apply amplify_pixel.
Qed.

(** A pixel of the amplified difference has a band that is not zero exactly
    when one of its bands is more than 100 away from the corner's. *)
Lemma nonzero_at_amplified (im diff : PIL.Image) :
  PIL.wf_image im → (0 < PIL.im_width im)%nat → (0 < PIL.im_height im)%nat →
  amplified_difference im = Ok diff →
  ∀ x y, PIL.nonzero_at diff x y = off_background im x y.
Proof.
  intros Hwf Hw Hh Hdiff x y.
  destruct (amplified_difference_pixels im Hwf Hw Hh)
    as (diff' & corner & Hdiff' & Hcorner & _ & _ & Hpx).
  rewrite Hdiff in Hdiff'. injection Hdiff' as <-.
  unfold PIL.nonzero_at, off_background. rewrite Hpx, Hcorner.
  destruct (PIL.pixel_at im x y) as [p|]; [simpl|done].
  apply nonzero_amplified.
Qed.

Lemma amplified_difference_mode (im diff : PIL.Image) :
  amplified_difference im = Ok diff → PIL.im_mode diff = PIL.im_mode im.
Proof.
  unfold amplified_difference.
  destruct (PIL.getpixel im (0, 0)) as [corner|]; [simpl|done].
  destruct (PIL.new _ _ corner) as [bg|] eqn:Hbg; [simpl|done].
  destruct (PIL.ImageChops_difference im bg) as [d1|] eqn:Hd1; [simpl|done].
  intros Hd2.
  apply chop_size in Hd1 as (Hm1 & _), Hd2 as (Hm2 & _). congruence.
Qed.

Lemma alpha_band_lt (m : PIL.mode) (a : nat) :
  PIL.alpha_band m = Some a → (a < PIL.bands m)%nat.
Proof. destruct m; intros [= <-]; simpl; lia. Qed.

(** A pixel counts for the bounding box exactly when it stands out: by its
    alpha alone in a mode that has one. *)
Lemma counts_at_amplified (im diff : PIL.Image) :
  PIL.wf_image im → (0 < PIL.im_width im)%nat → (0 < PIL.im_height im)%nat →
  amplified_difference im = Ok diff →
  ∀ x y, PIL.counts_at diff x y = stands_out im x y.
Proof.
  intros Hwf Hw Hh Hdiff x y.
  destruct (amplified_difference_pixels im Hwf Hw Hh)
    as (diff' & corner & Hdiff' & Hcorner & _ & _ & Hpx).
  rewrite Hdiff in Hdiff'. injection Hdiff' as <-.
  pose proof (nonzero_at_amplified im diff Hwf Hw Hh Hdiff x y) as Hnz.
  unfold PIL.counts_at, stands_out, PIL.counts.
  rewrite (amplified_difference_mode im diff Hdiff).
  destruct (PIL.alpha_band (PIL.im_mode im)) as [a|] eqn:Ha; [|exact Hnz].
  apply alpha_band_lt in Ha.
  unfold far_band. rewrite Hpx, Hcorner.
  destruct (PIL.pixel_at im x y) as [p|] eqn:Hp; [|done].
  destruct (pixel_at_inside im x y p Hwf Hp) as (_ & _ & Hlen & _).
  destruct (pixel_at_inside im 0 0 corner Hwf Hcorner) as (_ & _ & Hlenc & _).
  destruct (lookup_lt_is_Some_2 p a) as [v Hv]; [lia|].
  destruct (lookup_lt_is_Some_2 corner a) as [b Hb]; [lia|].
  cbn [mbind option_bind].
  assert (Hz : zip_with (λ v b : Z, amplified (Z.abs (v - b))) p corner !! a
               = Some (amplified (Z.abs (v - b))))
    by (apply lookup_zip_with_Some; eauto).
  unfold PIL.pixel in *. rewrite Hz, Hv, Hb. cbv [from_option id].
  pose proof (amplified_zero (Z.abs (v - b))).
  destruct (amplified (Z.abs (v - b)) =? 0) eqn:E0,
           (100 <? Z.abs (v - b)) eqn:E1; simpl; lia.
Qed.

(** A pixel equal to the corner does not stand out. *)
Lemma stands_out_same (im : PIL.Image) (x y : nat) :
  PIL.pixel_at im x y = PIL.pixel_at im 0 0 → stands_out im x y = false.
Proof.
  intros E. unfold stands_out, far_band, off_background. rewrite E.
  destruct (PIL.alpha_band _); destruct (PIL.pixel_at im 0 0) as [c|]; try done.
  - rewrite Z.sub_diag. reflexivity.
  - clear E. induction c as [|v c IH]; [done|].
    cbn [zip zip_with existsb fst snd]. by rewrite IH, Z.sub_diag.
Qed.

End Trim.

Section Crop.

Lemma pixel_at_crop (im : PIL.Image) (x0 y0 x1 y1 : Z) (i j : nat) :
  (i < Z.to_nat (x1 - x0))%nat → (j < Z.to_nat (y1 - y0))%nat →
  PIL.pixel_at (PIL.crop im (x0, y0, x1, y1)) i j
  = Some (PIL.crop_pixel im (x0 + Z.of_nat i) (y0 + Z.of_nat j)).
Proof.
  intros Hi Hj. unfold PIL.pixel_at, PIL.crop. cbn [PIL.im_rows].
  rewrite list_lookup_fmap, lookup_seq_lt by done. cbn [fmap option_fmap option_map mbind option_bind].
  rewrite list_lookup_fmap, lookup_seq_lt by done. done.
Qed.

Lemma crop_pixel_inside (im : PIL.Image) (x y : nat) (p : PIL.pixel) :
  PIL.pixel_at im x y = Some p →
  PIL.crop_pixel im (Z.of_nat x) (Z.of_nat y) = p.
Proof.
  intros Hp. unfold PIL.crop_pixel.
  rewrite !(proj2 (Z.leb_le 0 _)) by lia. cbn [andb]. by rewrite !Nat2Z.id, Hp.
Qed.

Lemma is_bounding_box_ext (P Q : nat → nat → bool) w h box :
  (∀ x y, P x y = Q x y) → is_bounding_box P w h box → is_bounding_box Q w h box.
Proof.
  intros E. destruct box as [[[x0 y0] x1] y1]. unfold is_bounding_box.
  intros (Hx & Hy & Hc & Ha & Hb & Hcc & Hd).
  split; [done|]. split; [done|]. split.
  { intros x y ? ?. rewrite <- E. by apply Hc. }
  repeat split.
  - destruct Ha as (y & ? & ?). exists y. by rewrite <- E.
  - destruct Hb as (y & ? & ?). exists y. by rewrite <- E.
  - destruct Hcc as (x & ? & ?). exists x. by rewrite <- E.
  - destruct Hd as (x & ? & ?). exists x. by rewrite <- E.
Qed.

(** What [trim] returns, read off the bounding box of the amplified
    difference. *)
Lemma trim_cases (im : PIL.Image) (diff : PIL.Image) :
  amplified_difference im = Ok diff →
  match PIL.getbbox diff with
  | Some box =>
      trim im = Ok (Some (PIL.crop im box)) ∧
      is_bounding_box (PIL.counts_at diff) (PIL.im_width im) (PIL.im_height im) box
  | None =>
      trim im = Ok None ∧
      ∀ x y, (x < PIL.im_width im)%nat → (y < PIL.im_height im)%nat →
             PIL.counts_at diff x y = false
  end.
Proof.
  intros Hdiff. unfold trim. rewrite Hdiff. cbn [mbind outcome_bind].
  destruct (amplified_difference_size im diff Hdiff) as [Hw Hh].
  pose proof (getbbox_spec diff) as Hspec. rewrite Hw, Hh in Hspec.
  by destruct (PIL.getbbox diff).
Qed.

End Crop.

(** Claim C10.  Whenever [trim] returns an image, it is no wider and no
    taller than the image it was given: the crop box lies within the
    image. *)
Theorem trim_not_larger (im t : PIL.Image) :
  trim im = Ok (Some t) →
  (PIL.im_width t ≤ PIL.im_width im)%nat ∧
  (PIL.im_height t ≤ PIL.im_height im)%nat.
Proof.
  intros Ht. unfold trim in Ht.
  destruct (amplified_difference im) as [diff|] eqn:Hdiff; [|done].
  pose proof (trim_cases im diff Hdiff) as Hc.
  cbn [mbind outcome_bind] in Ht.
  destruct (PIL.getbbox diff) as [[[[x0 y0] x1] y1]|]; [|done].
  injection Ht as <-. destruct Hc as [_ (Hx & Hy & _)].
  cbn [PIL.crop PIL.im_width PIL.im_height]. lia.
Qed.

Lemma trim_not_larger_witness :
  let t := PIL.crop Demo.framed (2, 1, 3, 2) in
  trim Demo.framed = Ok (Some t) ∧
  (PIL.im_width t ≤ PIL.im_width Demo.framed)%nat ∧
  (PIL.im_height t ≤ PIL.im_height Demo.framed)%nat.
Proof.
  split; [vm_compute; reflexivity|].
  apply (trim_not_larger Demo.framed). vm_compute. reflexivity.
Defined.

(** Claim C8.  The amplified difference.  With [d] the absolute difference
    of a band to the same band of pixel (0, 0), the band of the image whose
    bounding box is taken is [(d + d) / 2 - 100] clipped to a byte.  A band
    with [d] at most 100 becomes zero, one further away becomes [d - 100],
    and a pixel of that image has a band that is not zero exactly when one
    of its bands is more than 100 away from the corner's. *)
Theorem amplified_difference_formula (im : PIL.Image) :
  PIL.wf_image im → (0 < PIL.im_width im)%nat → (0 < PIL.im_height im)%nat →
  ∃ diff corner,
    amplified_difference im = Ok diff ∧
    PIL.pixel_at im 0 0 = Some corner ∧
    (∀ x y p, PIL.pixel_at im x y = Some p →
       PIL.pixel_at diff x y
       = Some (zip_with (λ v b, amplified (Z.abs (v - b))) p corner)) ∧
    (∀ d, d ≤ 100 → amplified d = 0) ∧
    (∀ d, 100 < d ≤ 255 → amplified d = d - 100) ∧
    (∀ x y, PIL.nonzero_at diff x y = off_background im x y).
Proof.
  intros Hwf Hw Hh.
  destruct (amplified_difference_pixels im Hwf Hw Hh)
    as (diff & corner & Hdiff & Hcorner & _ & _ & Hpx).
  exists diff, corner. split; [done|]. split; [done|]. split.
  { intros x y p Hp. by rewrite Hpx, Hp. }
  split; [intros d Hd; by apply amplified_zero|]. split.
  { intros d Hd. rewrite amplified_eq. apply clip8_byte. lia. }
  by apply nonzero_at_amplified.
Qed.

Lemma amplified_difference_formula_witness :
  ∃ diff corner,
    amplified_difference Demo.framed = Ok diff ∧
    PIL.pixel_at Demo.framed 0 0 = Some corner ∧
    (∀ x y p, PIL.pixel_at Demo.framed x y = Some p →
       PIL.pixel_at diff x y
       = Some (zip_with (λ v b, amplified (Z.abs (v - b))) p corner)) ∧
    (∀ d, d ≤ 100 → amplified d = 0) ∧
    (∀ d, 100 < d ≤ 255 → amplified d = d - 100) ∧
    (∀ x y, PIL.nonzero_at diff x y = off_background Demo.framed x y).
Proof.
  apply (amplified_difference_formula Demo.framed).
  - apply (bool_decide_unpack _). vm_compute. exact I.
  - simpl. lia.
  - simpl. lia.
Defined.

(** Claim C5, as amended.  For a loaded image of mode [L], [LA], [RGB]
    or [RGBA], [trim] computes the bounding box of the pixels that stand out
    from the pixel at (0, 0): in an [L] or [RGB] image the pixels with a band
    more than 100 away from the same band of the corner, in an [LA] or
    [RGBA] image the pixels whose alpha is more than 100 away from the
    corner's alpha, since [getbbox] looks at the alpha band alone there.
    When there is such a pixel [trim] returns the image cropped to exactly
    that box: same mode, the size of the box, and the pixels of the box in
    place. *)
Theorem trim_crops_to_stand_out_box (im : PIL.Image) :
  PIL.wf_image im →
  (∃ x y, (x < PIL.im_width im)%nat ∧ (y < PIL.im_height im)%nat ∧
          stands_out im x y = true) →
  ∃ x0 y0 x1 y1,
    is_bounding_box (stands_out im) (PIL.im_width im) (PIL.im_height im)
                    (x0, y0, x1, y1) ∧
    trim im = Ok (Some (PIL.crop im (x0, y0, x1, y1))) ∧
    let t := PIL.crop im (x0, y0, x1, y1) in
    PIL.im_mode t = PIL.im_mode im ∧
    Z.of_nat (PIL.im_width t) = x1 - x0 ∧
    Z.of_nat (PIL.im_height t) = y1 - y0 ∧
    ∀ i j, (i < PIL.im_width t)%nat → (j < PIL.im_height t)%nat →
           PIL.pixel_at t i j
           = PIL.pixel_at im (Z.to_nat x0 + i) (Z.to_nat y0 + j).
Proof.
  intros Hwf (xf & yf & Hxf & Hyf & Hfar).
  assert (Hw : (0 < PIL.im_width im)%nat) by lia.
  assert (Hh : (0 < PIL.im_height im)%nat) by lia.
  destruct (amplified_difference_pixels im Hwf Hw Hh)
    as (diff & corner & Hdiff & _).
  pose proof (counts_at_amplified im diff Hwf Hw Hh Hdiff) as Hnz.
  pose proof (trim_cases im diff Hdiff) as Hc.
  destruct (PIL.getbbox diff) as [[[[x0 y0] x1] y1]|].
  2:{ destruct Hc as [_ Hnone]. rewrite <- Hnz, Hnone in Hfar by done. done. }
  destruct Hc as [Htrim Hbox].
  apply (is_bounding_box_ext _ (stands_out im)) in Hbox; [|done].
  exists x0, y0, x1, y1. split; [done|]. split; [done|].
  destruct Hbox as (Hx & Hy & _).
  cbn zeta. split; [reflexivity|].
  split; [cbn [PIL.crop PIL.im_width]; lia|].
  split; [cbn [PIL.crop PIL.im_height]; lia|].
  intros i j Hi Hj. cbn [PIL.crop PIL.im_width PIL.im_height] in Hi, Hj.
  rewrite pixel_at_crop by done.
  destruct (wf_pixel_at im (Z.to_nat x0 + i) (Z.to_nat y0 + j) Hwf)
    as (p & Hp & _); [lia..|].
  rewrite Hp. f_equal.
  replace (x0 + Z.of_nat i) with (Z.of_nat (Z.to_nat x0 + i)) by lia.
  replace (y0 + Z.of_nat j) with (Z.of_nat (Z.to_nat y0 + j)) by lia.
  by apply crop_pixel_inside.
Qed.

(** On [Demo.ghost], an [RGBA] image, the box is that of the one pixel whose
    alpha is far from the corner's; the opaque-as-the-corner pixel of
    another colour is left out. *)
Lemma trim_crops_to_stand_out_box_witness :
  ∃ x0 y0 x1 y1,
    is_bounding_box (stands_out Demo.ghost) 3 1 (x0, y0, x1, y1) ∧
    trim Demo.ghost = Ok (Some (PIL.crop Demo.ghost (x0, y0, x1, y1))) ∧
    let t := PIL.crop Demo.ghost (x0, y0, x1, y1) in
    PIL.im_mode t = PIL.RGBA ∧
    Z.of_nat (PIL.im_width t) = x1 - x0 ∧
    Z.of_nat (PIL.im_height t) = y1 - y0 ∧
    ∀ i j, (i < PIL.im_width t)%nat → (j < PIL.im_height t)%nat →
           PIL.pixel_at t i j
           = PIL.pixel_at Demo.ghost (Z.to_nat x0 + i) (Z.to_nat y0 + j).
Proof.
  apply (trim_crops_to_stand_out_box Demo.ghost).
  - apply (bool_decide_unpack _). vm_compute. exact I.
  - exists 2%nat, 0%nat. split; [simpl; lia|]. split; [simpl; lia|].
    vm_compute. reflexivity.
Defined.

(** Claim C5 as stated fails: the box is not that of all pixels differing
    from the corner.  In the strip [0; 50; 200] the pixels differing from
    the corner have the box (1, 0, 3, 1), and [trim] crops to
    (2, 0, 3, 1). *)
Lemma trim_differing_box_counterexample :
  ¬ (∀ im : PIL.Image, PIL.wf_image im →
       (∀ box, is_bounding_box (differs_from_corner im)
                               (PIL.im_width im) (PIL.im_height im) box →
               trim im = Ok (Some (PIL.crop im box))) ∧
       ((∀ x y, (x < PIL.im_width im)%nat → (y < PIL.im_height im)%nat →
                differs_from_corner im x y = false) →
        trim im = Ok (Some im))).
Proof.
  intros Hclaim.
  destruct (Hclaim Demo.grey_strip) as [Hbox _].
  { apply (bool_decide_unpack _). vm_compute. exact I. }
  specialize (Hbox (1, 0, 3, 1)).
  assert (Htrim : trim Demo.grey_strip = Ok (Some (PIL.crop Demo.grey_strip (2, 0, 3, 1))))
    by (vm_compute; reflexivity).
  rewrite Htrim in Hbox.
  assert (Hne : Ok (Some (PIL.crop Demo.grey_strip (2, 0, 3, 1)))
                ≠ Ok (Some (PIL.crop Demo.grey_strip (1, 0, 3, 1))))
    by (vm_compute; discriminate).
  apply Hne, Hbox. unfold is_bounding_box.
  change (PIL.im_width Demo.grey_strip) with 3%nat.
  change (PIL.im_height Demo.grey_strip) with 1%nat.
  split; [lia|]. split; [lia|]. split.
  { intros x y Hx Hy Hd. assert (y = 0%nat) as -> by lia.
    destruct x as [|[|[|x]]]; [vm_compute in Hd; discriminate|lia|lia|lia]. }
  split; [exists 0%nat; split; [lia|vm_compute; reflexivity]|].
  split; [exists 0%nat; split; [lia|vm_compute; reflexivity]|].
  split; [exists 1%nat; split; [lia|vm_compute; reflexivity]|].
  exists 1%nat. split; [lia|vm_compute; reflexivity].
Qed.

(** Claim C4.  For an image of one colour the bounding-box step yields no
    box and [trim] returns [None]; the pipeline then does not treat this as
    "no crop": the method call on [None] raises [AttributeError], and
    [deborder_and_save] stops with that exception, nothing saved. *)
Theorem uniform_image_crashes (im : PIL.Image) :
  PIL.wf_image im → (0 < PIL.im_width im)%nat → (0 < PIL.im_height im)%nat →
  (∀ x y, (x < PIL.im_width im)%nat → (y < PIL.im_height im)%nat →
          PIL.pixel_at im x y = PIL.pixel_at im 0 0) →
  (∃ diff, amplified_difference im = Ok diff ∧ PIL.getbbox diff = None) ∧
  trim im = Ok None ∧
  deborder im = Raise AttributeError ∧
  ∀ {G : Type} (w : world G) (filename output_dir : string),
    w_images w !! filename = Some im →
    deborder_and_save filename output_dir w = (Raise AttributeError, w).
Proof.
  intros Hwf Hw Hh Huni.
  destruct (amplified_difference_pixels im Hwf Hw Hh)
    as (diff & corner & Hdiff & Hcorner & _).
  pose proof (counts_at_amplified im diff Hwf Hw Hh Hdiff) as Hnz.
  assert (Hflat : ∀ x y, (x < PIL.im_width im)%nat → (y < PIL.im_height im)%nat →
                         PIL.counts_at diff x y = false).
  { intros x y Hx Hy. rewrite Hnz. by apply stands_out_same, Huni. }
  pose proof (trim_cases im diff Hdiff) as Hc.
  destruct (PIL.getbbox diff) as [[[[x0 y0] x1] y1]|] eqn:Hbb.
  { destruct Hc as [_ (_ & _ & _ & (y & Hy & Hdata) & _)].
    destruct (Nat.lt_ge_cases (Z.to_nat x0) (PIL.im_width im)) as [Hx|Hx].
    - rewrite Hflat in Hdata by done. done.
    - unfold PIL.counts_at in Hdata.
      destruct (PIL.pixel_at diff (Z.to_nat x0) y) as [p|] eqn:Hp; [|done].
      destruct (amplified_difference_pixels im Hwf Hw Hh)
        as (diff' & corner' & Hdiff' & _ & _ & _ & Hpx).
      rewrite Hdiff in Hdiff'. injection Hdiff' as <-.
      rewrite Hpx in Hp.
      destruct (PIL.pixel_at im (Z.to_nat x0) y) as [q|] eqn:Hq; [|done].
      apply (pixel_at_inside im _ _ _ Hwf) in Hq. lia. }
  destruct Hc as [Htrim _].
  assert (Hdeb : deborder im = Raise AttributeError)
    by (unfold deborder; by rewrite Htrim).
  split; [by exists diff|]. split; [done|]. split; [done|].
  intros G w filename output_dir Hfile.
  unfold deborder_and_save, Image_open.
  cbv [mbind prog_bind]. rewrite Hfile. unfold lift. by rewrite Hdeb.
Qed.

Lemma uniform_image_crashes_witness :
  (∃ diff, amplified_difference Demo.blank = Ok diff ∧ PIL.getbbox diff = None) ∧
  trim Demo.blank = Ok None ∧
  deborder Demo.blank = Raise AttributeError ∧
  ∀ {G : Type} (w : world G) (filename output_dir : string),
    w_images w !! filename = Some Demo.blank →
    deborder_and_save filename output_dir w = (Raise AttributeError, w).
Proof.
  apply (uniform_image_crashes Demo.blank).
  - apply (bool_decide_unpack _). vm_compute. exact I.
  - simpl. lia.
  - simpl. lia.
  - intros [|[|x]] [|[|y]] Hx Hy; simpl in Hx, Hy; try lia; reflexivity.
Defined.

(** Claim C6 as stated fails: the background does not take the mode of the
    trimmed image.  The trimmed [RGBA] image of [Demo.framed] gets an [RGB]
    background. *)
Lemma white_background_mode_counterexample :
  ¬ (∀ im t bg : PIL.Image,
       trim im = Ok (Some t) → white_background t = Ok bg →
       PIL.size bg = PIL.size t ∧ PIL.im_mode bg = PIL.im_mode t).
Proof.
  intros Hclaim.
  destruct (Hclaim Demo.framed
              (PIL.crop Demo.framed (2, 1, 3, 2))
              (PIL.mkImage PIL.RGB 1 1 [[[255; 255; 255]]])) as [_ Hmode].
  - vm_compute. reflexivity.
  - vm_compute. reflexivity.
  - vm_compute in Hmode. discriminate.
Qed.

(** Claim C6, as amended.  The white background created for compositing
    has the size of the trimmed image; its mode is always [RGB], whatever
    the mode of the trimmed image, and every pixel of it is white. *)
Theorem white_background_size_and_mode (image : PIL.Image) :
  ∃ bg, white_background image = Ok bg ∧
        PIL.size bg = PIL.size image ∧
        PIL.im_mode bg = PIL.RGB ∧
        ∀ x y, (x < PIL.im_width image)%nat → (y < PIL.im_height image)%nat →
               PIL.pixel_at bg x y = Some [255; 255; 255].
Proof.
  unfold white_background, PIL.new, PIL.size. simpl.
  eexists. split; [done|]. split; [done|]. split; [done|].
  intros x y Hx Hy. unfold PIL.pixel_at. simpl.
  rewrite lookup_replicate_2 by done. simpl. by rewrite lookup_replicate_2.
Qed.

Lemma paste_size_and_mode (self im mask out : PIL.Image) :
  PIL.paste self im mask = Ok out →
  PIL.im_mode out = PIL.im_mode self ∧ PIL.size out = PIL.size self.
Proof.
  unfold PIL.paste. destruct (negb _); [done|]. destruct (negb _); [done|].
  destruct (PIL.mask_band _); [|done]. by intros [= <-].
Qed.

(** When the composite succeeds, the trimmed image was [RGBA]: the
    background never has its mode. *)
Lemma deborder_modes (opened out : PIL.Image) :
  deborder opened = Ok out →
  ∃ t, trim opened = Ok (Some t) ∧ PIL.im_mode t = PIL.RGBA ∧
       PIL.im_mode out = PIL.RGB ∧ PIL.size out = PIL.size t.
Proof.
  unfold deborder. destruct (trim opened) as [[t|]|]; [|done..].
  cbn [mbind outcome_bind the_image].
  assert (Hwb : ∃ bg, white_background t = Ok bg ∧
                      PIL.size bg = PIL.size t ∧ PIL.im_mode bg = PIL.RGB)
    by (unfold white_background, PIL.new, PIL.size; simpl; eauto).
  destruct Hwb as (bg & -> & Hsize & Hmode).
  cbn [mbind outcome_bind].
  destruct (py_index (PIL.split t) 3) as [mask|] eqn:Hmask; [|done].
  cbn [mbind outcome_bind]. intros Hpaste. exists t. split; [done|].
  assert (Ht : PIL.im_mode t = PIL.RGBA).
  { unfold py_index, PIL.split in Hmask. rewrite length_fmap, length_seq in Hmask.
    destruct (PIL.im_mode t); try done; vm_compute in Hmask; done. }
  split; [done|].
  apply paste_size_and_mode in Hpaste as [-> ->]. done.
Qed.

(* ===================================================================== *)
(** * Part III: further properties of the script                           *)
(* ===================================================================== *)

(** ** The two boundaries are ordered for every list length *)

Section FloatOrder.

(** [float(N)] for a list length: a full 53-bit mantissa, rounded or not. *)
Lemma of_int_normal (N : Z) :
  0 < N < 2 ^ 63 →
  ∃ my ey, Float64.of_int N = Ok (S754_finite false my ey) ∧
           2 ^ 52 ≤ Z.pos my < 2 ^ 53 ∧ -52 ≤ ey ≤ 11.
Proof.
  intros [HN0 HN]. destruct (Z.lt_ge_cases N (2 ^ 53)) as [Hsmall|Hbig].
  - destruct (of_int_exact N) as (mz & k & Hk & Hmz & Hmzb & Hof); [lia|].
    exists mz, (- k). split; [done|]. split; [done|].
    assert (k < 53); [|lia].
    apply pow2_le_inv; [lia|].
    assert (0 < 2 ^ k) by (apply Z.pow_pos_nonneg; lia).
    assert (2 ^ k * 1 ≤ 2 ^ k * N) by (apply Z.mul_le_mono_nonneg_l; lia). lia.
  - destruct N as [|n|n]; [lia| |lia].
    pose proof (digits2_pos_bounds n) as [Hlo Hhi].
    set (d := Z.pos (digits2_pos n)) in *.
    assert (Hd53 : 53 < d) by (apply pow2_le_inv; lia).
    assert (Hd63 : d - 1 < 63) by (apply pow2_le_inv; lia).
    unfold Float64.of_int, Float64.prec, Float64.emax, binary_normalize,
      binary_round.
    fold d.
    replace (fexp 53 1024 (d + 0)) with (d - 53) by (unfold fexp, emin; lia).
    unfold shl_align. destruct (d - 53 - 0) as [|j|j] eqn:Hj; [lia| |lia].
    destruct (binary_round_aux_wide n 0)
      as (m' & e' & q1 & -> & He' & Hm' & _); [fold d; lia..|].
    fold d in He'. exists m', e'. split; [done|]. split; [done|]. lia.
Qed.

(** The rounded product of two full mantissas, in units of [2^e]: within
    one part in [2^52] of the exact product. *)
Lemma mul_normal (c my : positive) (ey : Z) :
  2 ^ 52 ≤ Z.pos c < 2 ^ 53 → 2 ^ 52 ≤ Z.pos my < 2 ^ 53 → -60 ≤ ey ≤ 60 →
  ∃ m' e' R,
    Float64.mul (S754_finite false c (-53)) (S754_finite false my ey)
      = S754_finite false m' e' ∧
    -53 + ey ≤ e' ∧
    Z.pos m' * 2 ^ (e' - (-53 + ey)) = R ∧
    2 ^ 53 * R ≤ (2 ^ 53 + 1) * (Z.pos c * Z.pos my) ∧
    (2 ^ 52 - 1) * (Z.pos c * Z.pos my) ≤ 2 ^ 52 * R.
Proof.
  intros Hc Hmy Hey.
  unfold Float64.mul, Float64.prec, Float64.emax, SFmul. simpl xorb.
  pose proof (digits2_pos_bounds (c * my)) as [Hdlo Hdhi].
  set (D := Z.pos (digits2_pos (c * my))) in *.
  set (P := Z.pos (c * my)) in *.
  assert (HP : P = Z.pos c * Z.pos my) by (unfold P; apply Pos2Z.inj_mul).
  assert (HPlo : 2 ^ 104 ≤ P).
  { rewrite HP. change (2 ^ 104) with (2 ^ 52 * 2 ^ 52).
    apply Z.mul_le_mono_nonneg; lia. }
  assert (HPhi : P < 2 ^ 106).
  { rewrite HP. change (2 ^ 106) with (2 ^ 53 * 2 ^ 53).
    apply Z.mul_lt_mono_nonneg; lia. }
  assert (HD104 : 104 < D) by (apply pow2_le_inv; lia).
  assert (HD106 : D - 1 < 106) by (apply pow2_le_inv; lia).
  destruct (binary_round_aux_wide (c * my) (-53 + ey))
    as (m' & e' & q1 & Hbra & [He' _] & _ & HR & Hq1); [fold D; lia..|].
  fold D P in HR, Hq1, Hbra. rewrite Hbra. clear Hbra.
  exists m', e', (q1 * 2 ^ (D - 53)). split; [done|]. split; [done|].
  split; [done|]. rewrite <- HP.
  set (s := D - 53) in *.
  assert (HH : 0 < 2 ^ (s - 1)) by (apply Z.pow_pos_nonneg; lia).
  assert (Hhalf : 2 ^ s = 2 * 2 ^ (s - 1)).
  { rewrite <- Z.pow_succ_r by lia. f_equal. lia. }
  assert (Hulp : 2 ^ 52 * 2 ^ s ≤ P).
  { rewrite <- pow2_split by lia. replace (52 + s) with (D - 1) by lia. done. }
  pose proof (Z.div_mod P (2 ^ s) ltac:(lia)) as Hdm.
  pose proof (Z.mod_pos_bound P (2 ^ s) ltac:(lia)) as Hr.
  set (q := P / 2 ^ s) in *. set (r := P `mod` 2 ^ s) in *.
  set (S := 2 ^ s) in *. set (H := 2 ^ (s - 1)) in *.
  assert (HqS : q * S = P - r) by lia.
  assert (HR1 : q1 * S = q * S ∨ (q1 * S = q * S + S ∧ H ≤ r)).
  { destruct Hq1 as [->|[-> Hh]]; [by left|right].
    split; [ring|done]. }
  change (2 ^ 53) with 9007199254740992. change (2 ^ 52) with 4503599627370496 in *.
  destruct HR1 as [->|[-> Hh]]; lia.
Qed.

(** [int(x)] of a positive double given in units of [2^e]. *)
Lemma to_int_scaled (m' : positive) (e e' R : Z) :
  e ≤ e' → Z.pos m' * 2 ^ (e' - e) = R →
  Float64.to_int (S754_finite false m' e')
  = Ok (if e <? 0 then R / 2 ^ (- e) else R * 2 ^ e).
Proof.
  intros He <-. unfold Float64.to_int. f_equal.
  assert (0 < 2 ^ (e' - e)) by (apply Z.pow_pos_nonneg; lia).
  destruct (e' <? 0) eqn:E'; [apply Z.ltb_lt in E'|apply Z.ltb_ge in E'].
  - replace (e <? 0) with true by lia.
    replace (2 ^ (- e)) with (2 ^ (e' - e) * 2 ^ (- e'))
      by (rewrite <- pow2_split by lia; f_equal; lia).
    assert (0 < 2 ^ (- e')) by (apply Z.pow_pos_nonneg; lia).
    rewrite (Z.mul_comm (Z.pos m')). by rewrite Z.div_mul_cancel_l by lia.
  - destruct (e <? 0) eqn:E; [apply Z.ltb_lt in E|apply Z.ltb_ge in E].
    + replace (2 ^ (e' - e)) with (2 ^ e' * 2 ^ (- e))
        by (rewrite <- pow2_split by lia; f_equal; lia).
      assert (0 < 2 ^ (- e)) by (apply Z.pow_pos_nonneg; lia).
      rewrite Z.mul_assoc. by rewrite Z.div_mul by lia.
    + replace (2 ^ e') with (2 ^ (e' - e) * 2 ^ e)
        by (rewrite <- pow2_split by lia; f_equal; lia).
      ring.
Qed.

(** Lines 78-79: for every length a list can have, both boundaries are
    computed and [0 <= split1 <= split2]. *)
Lemma split_points_ordered (n : Z) :
  0 ≤ n < 2 ^ 63 →
  ∃ split1 split2, split_points n = Ok (split1, split2) ∧
                   0 ≤ split1 ≤ split2.
Proof.
  intros Hn. unfold split_points. rewrite literal_0_8, literal_0_9.
  destruct (Z.eq_dec n 0) as [->|Hn0].
  { exists 0, 0. split; [reflexivity|lia]. }
  destruct (of_int_normal n) as (my & ey & Hof & Hmy & Hey); [lia|].
  unfold Float64.mul_int. rewrite Hof. cbn [mbind outcome_bind].
  destruct (mul_normal 7205759403792794 my ey)
    as (m1 & e1 & R1 & -> & He1 & HR1 & Hup1 & _); [done|done|lia|].
  destruct (mul_normal 8106479329266893 my ey)
    as (m2 & e2 & R2 & -> & He2 & HR2 & _ & Hlo2); [done|done|lia|].
  rewrite (to_int_scaled m1 (-53 + ey) e1 R1 He1 HR1).
  rewrite (to_int_scaled m2 (-53 + ey) e2 R2 He2 HR2).
  cbn [mbind outcome_bind]. eexists _, _. split; [reflexivity|].
  assert (HR10 : 0 ≤ R1).
  { rewrite <- HR1. apply Z.mul_nonneg_nonneg; [lia|].
    apply Z.pow_nonneg. lia. }
  assert (HR12 : R1 ≤ R2).
  { change (2 ^ 53) with 9007199254740992 in *.
    change (2 ^ 52) with 4503599627370496 in *. lia. }
  destruct (-53 + ey <? 0) eqn:E.
  - apply Z.ltb_lt in E.
    assert (0 < 2 ^ (- (-53 + ey))) by (apply Z.pow_pos_nonneg; lia).
    split; [apply Z.div_pos; lia|apply Z.div_le_mono; lia].
  - apply Z.ltb_ge in E.
    assert (0 ≤ 2 ^ (-53 + ey)) by (apply Z.pow_nonneg; lia).
    split; [apply Z.mul_nonneg_nonneg; lia|apply Z.mul_le_mono_nonneg_r; lia].
Qed.

End FloatOrder.

Section MoreSlices.
Context {A : Type}.
Implicit Types l : list A.

(** A slice only holds elements of the list. *)
Lemma py_slice_subseteq lo hi l : py_slice lo hi l ⊆ l.
Proof.
  unfold py_slice. intros x Hx.
  apply elem_of_take in Hx as (i & Hx & _).
  apply list_elem_of_lookup_2 in Hx.
  revert Hx. generalize (Z.to_nat match lo with
                                  | Some i => py_slice_bound (Z.of_nat (length l)) i
                                  | None => 0
                                  end).
  intros n Hx. rewrite <- (take_drop n l). apply elem_of_app. by right.
Qed.

(** [l[:a] + l[a:b] + l[b:] == l] for [0 <= a <= b], also beyond the end. *)
Lemma py_slice_three l (a b : Z) :
  0 ≤ a ≤ b →
  py_slice None (Some a) l ++ py_slice (Some a) (Some b) l
    ++ py_slice (Some b) None l = l.
Proof.
  intros Hab. unfold py_slice, py_slice_bound.
  replace (a <? 0) with false by lia. replace (b <? 0) with false by lia.
  rewrite drop_0.
  set (a' := Z.to_nat (Z.min a (Z.of_nat (length l)))).
  set (b' := Z.to_nat (Z.min b (Z.of_nat (length l)))).
  replace (Z.to_nat (Z.min a (Z.of_nat (length l)) - 0)) with a' by lia.
  replace (Z.to_nat (Z.min b (Z.of_nat (length l))
                     - Z.min a (Z.of_nat (length l))))
    with (b' - a')%nat by lia.
  rewrite (take_ge (drop b' l)) by (rewrite length_drop; lia).
  apply three_slices. lia.
Qed.

End MoreSlices.

Section MoreSplit.
Context {G : Type} `{PyRuntime G}.

(** The three slices of lines 81-83 put together are the list that was
    sliced, for every list a Python process can hold. *)
Lemma partition_concat (filenames : list string) :
  Z.of_nat (length filenames) < 2 ^ 63 →
  ∃ s, partition filenames = Ok s ∧
       train_filenames s ++ dev_filenames s ++ test_filenames s = filenames.
Proof.
  intros Hn. unfold partition.
  destruct (split_points_ordered (Z.of_nat (length filenames)))
    as (split1 & split2 & -> & Hord); [lia|].
  cbn [mbind outcome_bind]. eexists. split; [reflexivity|].
  by apply py_slice_three.
Qed.

Lemma partition_subseteq (filenames : list string) (s : splits) :
  partition filenames = Ok s →
  train_filenames s ⊆ filenames ∧ dev_filenames s ⊆ filenames ∧
  test_filenames s ⊆ filenames.
Proof.
  unfold partition. destruct (split_points _) as [[split1 split2]|]; [|done].
  cbn [mbind outcome_bind]. intros [= <-]. cbn.
  repeat split; apply py_slice_subseteq.
Qed.

(** Every filename of a split is one of the [.png] filenames. *)
Lemma build_splits_subseteq (g : G) (seed data_dir : string)
    (entries : list string) (s : splits) (f : string) :
  (build_splits g seed data_dir entries).1 = Ok s →
  f ∈ train_filenames s ++ dev_filenames s ++ test_filenames s →
  f ∈ png_filenames data_dir entries.
Proof.
  intros Hs Hf. unfold build_splits in Hs.
  destruct (int_of_str seed) as [sd|] eqn:Hsd; [|done].
  destruct (build_splits_shuffled g seed sd data_dir entries Hsd)
    as (shuffled & g' & Hp & Hsh & _).
  destruct (shuffle _ _) as [r g''] eqn:E. simpl in Hsh. subst r.
  simpl in Hs. apply partition_subseteq in Hs as (H1 & H2 & H3).
  rewrite <- Hp. rewrite !elem_of_app in Hf.
  destruct Hf as [?|[?|?]]; [by apply H1|by apply H2|by apply H3].
Qed.

Lemma filenames_of_elem (s : splits) (split : string) (names : list string) f :
  filenames_of s split = Ok names → f ∈ names →
  f ∈ train_filenames s ++ dev_filenames s ++ test_filenames s.
Proof.
  unfold filenames_of. rewrite !elem_of_app.
  repeat case_bool_decide; intros [= <-]; auto.
Qed.

End MoreSplit.

Lemma endswith_app (a b suf : string) :
  Str.endswith b suf = true → Str.endswith (a +:+ b) suf = true.
Proof.
  unfold Str.endswith. intros Hs%bool_decide_eq_true.
  apply bool_decide_eq_true. rewrite chars_app. by apply suffix_app_r.
Qed.

Lemma path_join_endswith (a b suf : string) :
  Str.endswith b suf = true → Str.endswith (path_join a b) suf = true.
Proof.
  intros Hb. unfold path_join.
  destruct (Str.startswith b "/"); [done|].
  destruct (_ || _); by repeat apply endswith_app.
Qed.

(** ** Names of the saved files *)

Section Names.

Lemma relative_of_no_slash (s : string) :
  "/"%char ∉ Str.chars s → Str.startswith s "/" = false.
Proof.
  intros Hs. destruct (Str.startswith s "/") eqn:E; [|done].
  by apply startswith_slash_elem in E.
Qed.

Lemma no_slash_app (s t : string) :
  "/"%char ∉ Str.chars s → "/"%char ∉ Str.chars t →
  "/"%char ∉ Str.chars (s +:+ t).
Proof. intros Hs Ht. rewrite chars_app, elem_of_app. by intros [?|?]. Qed.

Lemma no_slash_literal (t : string) :
  bool_decide ("/"%char ∉ Str.chars t) = true → "/"%char ∉ Str.chars t.
Proof. apply bool_decide_eq_true_1. Qed.


Lemma output_path_jpg (output_dir filename path : string) :
  output_path output_dir filename = Ok path → Str.endswith path "jpg" = true.
Proof.
  unfold output_path. destruct (basename filename) as [name|]; [|done].
  cbn [mbind outcome_bind]. intros [= <-].
  apply bool_decide_eq_true. rewrite chars_app. by apply suffix_app_r.
Qed.

(** Line 55 for an entry [stem.png] of the listing. *)
Lemma output_path_entry (data_dir output_dir stem : string) :
  "/"%char ∉ Str.chars stem →
  output_path output_dir (path_join data_dir (stem +:+ ".png"))
  = Ok (join_prefix output_dir +:+ stem +:+ ".jpg").
Proof.
  intros Hstem.
  assert (Hentry : "/"%char ∉ Str.chars (stem +:+ ".png"))
    by (apply no_slash_app; [done|by apply no_slash_literal]).
  unfold output_path. rewrite path_join_relative by by apply relative_of_no_slash.
  rewrite basename_after_prefix by done. cbn [mbind outcome_bind].
  assert (Hcut : Str.slice None (Some (-3)) (stem +:+ ".png") = stem +:+ ".").
  { apply chars_inj. rewrite slice_drop_last3, !chars_app, length_app. simpl.
    replace (length (Str.chars stem) + 4 - 3)%nat
      with (length (Str.chars stem) + 1)%nat by lia.
    by rewrite take_app_add. }
  rewrite Hcut.
  rewrite path_join_relative
    by (apply relative_of_no_slash, no_slash_app; [done|by apply no_slash_literal]).
  f_equal. apply chars_inj. rewrite !chars_app. simpl. by rewrite <- !app_assoc.
Qed.

Lemma endswith_split (s suf : string) :
  Str.endswith s suf = true → ∃ stem, s = stem +:+ suf.
Proof.
  intros [k Hk]%bool_decide_eq_true. exists (Str.of_chars k).
  apply chars_inj. by rewrite chars_app, chars_of_chars.
Qed.

(** The stem can be read off an output name, whatever the directory. *)
Lemma jpg_name_inj (d d' stem stem' : string) :
  "/"%char ∉ Str.chars stem → "/"%char ∉ Str.chars stem' →
  join_prefix d +:+ stem +:+ ".jpg" = join_prefix d' +:+ stem' +:+ ".jpg" →
  stem = stem'.
Proof.
  intros Hs Hs' E.
  pose proof (basename_after_prefix d (stem +:+ ".jpg")
                (no_slash_app _ _ Hs (no_slash_literal ".jpg" eq_refl))) as H1.
  pose proof (basename_after_prefix d' (stem' +:+ ".jpg")
                (no_slash_app _ _ Hs' (no_slash_literal ".jpg" eq_refl))) as H2.
  rewrite E, H2 in H1. injection H1 as H1.
  apply chars_inj. apply (f_equal Str.chars) in H1.
  rewrite !chars_app in H1. by apply app_inv_tail in H1.
Qed.

(** Two [.png] entries saved under one name are one entry, also across
    the directories of the splits. *)
Lemma output_path_same_entry (data_dir d d' e e' path : string) :
  "/"%char ∉ Str.chars e → "/"%char ∉ Str.chars e' →
  Str.endswith e ".png" = true → Str.endswith e' ".png" = true →
  output_path d (path_join data_dir e) = Ok path →
  output_path d' (path_join data_dir e') = Ok path →
  e = e'.
Proof.
  intros He He' [stem ->]%endswith_split [stem' ->]%endswith_split.
  rewrite chars_app, not_elem_of_app in He, He'.
  destruct He as [Hs _], He' as [Hs' _].
  rewrite !output_path_entry by done. intros [= <-] [= E].
  f_equal. symmetry. by eapply jpg_name_inj.
Qed.

(** A filename made from a listing without slashes: its entry. *)
Lemma png_filenames_entry (data_dir : string) (entries : list string) f :
  Forall (λ e, "/"%char ∉ Str.chars e) entries →
  f ∈ png_filenames data_dir entries →
  ∃ e, f = path_join data_dir e ∧ ("/"%char ∉ Str.chars e) ∧
       Str.endswith e ".png" = true.
Proof.
  intros Hall Hf. unfold png_filenames in Hf.
  apply list_elem_of_fmap in Hf as (e & -> & [Hpng He]%list_elem_of_filter).
  exists e. split; [done|]. split; [|done].
  rewrite Forall_forall in Hall. by apply Hall.
Qed.

End Names.

(** ** More on [trim] and the composite *)

Section MoreTrim.

Lemma trim_is_crop (im t : PIL.Image) :
  trim im = Ok (Some t) → ∃ box, t = PIL.crop im box.
Proof.
  unfold trim. destruct (amplified_difference im) as [diff|]; [|done].
  cbn [mbind outcome_bind]. destruct (PIL.getbbox diff) as [box|]; [|done].
  intros [= <-]. by exists box.
Qed.

Lemma crop_mode (im : PIL.Image) (box : PIL.bbox) :
  PIL.im_mode (PIL.crop im box) = PIL.im_mode im.
Proof. by destruct box as [[[??]?]?]. Qed.

(** [BLEND8] at the two ends of the mask, checked on every byte. *)
Lemma blend8_opaque v : 0 ≤ v ≤ 255 → PIL.blend8 255 255 v = v.
Proof.
  intros Hv.
  assert (Hall : forallb (λ v, PIL.blend8 255 255 v =? v) (seqZ 0 256) = true)
    by (vm_compute; reflexivity).
  rewrite forallb_forall in Hall. apply Z.eqb_eq, Hall.
  apply list_elem_of_In, elem_of_seqZ. lia.
Qed.

Lemma blend8_transparent v : 0 ≤ v ≤ 255 → PIL.blend8 0 255 v = 255.
Proof.
  intros Hv.
  assert (Hall : forallb (λ v, PIL.blend8 0 255 v =? 255) (seqZ 0 256) = true)
    by (vm_compute; reflexivity).
  rewrite forallb_forall in Hall. apply Z.eqb_eq, Hall.
  apply list_elem_of_In, elem_of_seqZ. lia.
Qed.

Lemma pixel_at_band_image (im : PIL.Image) (c x y : nat) :
  PIL.pixel_at (PIL.band_image im c) x y
  = (λ p : PIL.pixel, [default 0 (p !! c)]) <$> PIL.pixel_at im x y.
Proof.
  unfold PIL.pixel_at, PIL.band_image. cbn [PIL.im_rows].
  rewrite list_lookup_fmap. destruct (PIL.im_rows im !! y) as [row|]; [|done].
  cbn. by rewrite list_lookup_fmap.
Qed.

Lemma pixel_at_imap (f : nat → nat → PIL.pixel → PIL.pixel) (m : PIL.mode)
    (w h : nat) (rows : list (list PIL.pixel)) (row : list PIL.pixel)
    (p : PIL.pixel) (x y : nat) :
  rows !! y = Some row → row !! x = Some p →
  PIL.pixel_at (PIL.mkImage m w h (imap (λ y row, imap (λ x out, f x y out) row) rows))
               x y
  = Some (f x y p).
Proof.
  intros Hrow Hp. unfold PIL.pixel_at. cbn [PIL.im_rows].
  rewrite list_lookup_imap, Hrow. cbn. by rewrite list_lookup_imap, Hp.
Qed.

End MoreTrim.

(** ** Runs of the script *)

Section Worlds.
Context {G : Type}.
Implicit Types w : world G.

Lemma world_le_refl w : world_le w w.
Proof. split; [done|]. split; [|by split]. intros p l Hl. by exists l. Qed.

Lemma world_le_trans w1 w2 w3 :
  world_le w1 w2 → world_le w2 w3 → world_le w1 w3.
Proof.
  intros (Hi & Hd & Hs & Ho) (Hi' & Hd' & Hs' & Ho').
  split; [intros p Hp; by rewrite Hi', Hi|].
  split; [|split; [eauto|by etrans]].
  intros p l Hl. destruct (Hd p l Hl) as (l1 & Hl1 & Hsub).
  destruct (Hd' p l1 Hl1) as (l2 & Hl2 & Hsub').
  exists l2. split; [done|by etrans].
Qed.

(** A listing only gains names. *)
Lemma add_entry_lookup dir name (dirs : gmap string (list string)) p entries :
  dirs !! p = Some entries →
  ∃ entries', add_entry dir name dirs !! p = Some entries' ∧ entries ⊆ entries'.
Proof.
  intros Hp. unfold add_entry. destruct (decide (dir = p)) as [->|Hne].
  - rewrite lookup_alter_eq, Hp. simpl. eexists. split; [done|].
    case_bool_decide; [done|]. intros x Hx. apply elem_of_app. by left.
  - rewrite lookup_alter_ne by done. by exists entries.
Qed.

Lemma bind_run {A B} (m : prog G A) (k : A → prog G B) w :
  (m ≫= k) w = match m w with
                | (Ok a, w1) => k a w1
                | (Raise e, w1) => (Raise e, w1)
                end.
Proof. reflexivity. Qed.

Lemma prog_bind_ok {A B} (m : prog G A) (k : A → prog G B) w b w' :
  (m ≫= k) w = (Ok b, w') →
  ∃ a w1, m w = (Ok a, w1) ∧ k a w1 = (Ok b, w').
Proof. rewrite bind_run. destruct (m w) as [[a|e] w1]; [eauto|done]. Qed.

Lemma prog_bind_le {A B} (m : prog G A) (k : A → prog G B) w :
  world_le w (m w).2 →
  (∀ a w1, m w = (Ok a, w1) → world_le w1 (k a w1).2) →
  world_le w ((m ≫= k) w).2.
Proof.
  intros Hm Hk. rewrite bind_run.
  destruct (m w) as [[a|e] w1]; simpl in *; [|done].
  eapply world_le_trans; [done|by apply Hk].
Qed.

Lemma lift_le {A} (m : outcome A) w : world_le w (lift (G := G) m w).2.
Proof. apply world_le_refl. Qed.

Lemma print_le line w : world_le w (print line w).2.
Proof.
  split; [done|]. split; [by intros p l Hl; exists l|]. split; [done|].
  simpl. by apply prefix_app_r.
Qed.

Lemma os_path_exists_le p w : world_le w (os_path_exists p w).2.
Proof. apply world_le_refl. Qed.

Lemma os_path_isdir_le p w : world_le w (os_path_isdir p w).2.
Proof. apply world_le_refl. Qed.

Lemma os_listdir_le p w : world_le w (os_listdir p w).2.
Proof. unfold os_listdir. destruct (w_dirs w !! p); apply world_le_refl. Qed.

Lemma os_mkdir_le p w : world_le w (os_mkdir p w).2.
Proof.
  unfold os_mkdir. destruct (_ || _) eqn:Hused; [apply world_le_refl|].
  split; [done|]. split; [|by split]. simpl. intros q l Hq.
  assert (p ≠ q) as Hne.
  { intros ->. apply orb_false_elim in Hused as [[Hd _]%orb_false_elim _].
    apply bool_decide_eq_false in Hd. apply Hd. by rewrite Hq. }
  rewrite lookup_insert_ne by done. by apply add_entry_lookup.
Qed.

Lemma Image_open_le f w : world_le w (Image_open f w).2.
Proof.
  unfold Image_open. destruct (w_images w !! f); [apply world_le_refl|].
  destruct (bool_decide _); apply world_le_refl.
Qed.

(** Saving under a name that ends with [jpg] leaves every other kind of
    file alone. *)
Lemma save_jpeg_le path im q w :
  Str.endswith path "jpg" = true → world_le w (save_jpeg path im q w).2.
Proof.
  intros Hjpg. unfold save_jpeg.
  destruct (bool_decide (is_Some (w_dirs w !! path))); [apply world_le_refl|].
  destruct (_ || _); [|destruct (_ || _); apply world_le_refl].
  split; [|split; [|split; [|done]]]; simpl.
  - intros p Hp. apply lookup_delete_ne. intros ->. congruence.
  - intros p l. apply add_entry_lookup.
  - intros p Hp. apply lookup_insert_is_Some'. by right.
Qed.

Lemma for_each_le {A} (xs : list A) (body : A → prog G unit) :
  (∀ x w, world_le w (body x w).2) → ∀ w, world_le w (for_each xs body w).2.
Proof.
  intros Hbody. induction xs as [|x xs IH]; intros w; [apply world_le_refl|].
  cbn [for_each]. apply prog_bind_le; [apply Hbody|]. intros _ w1 _. apply IH.
Qed.

Lemma deborder_and_save_le f d w : world_le w (deborder_and_save f d w).2.
Proof.
  unfold deborder_and_save.
  apply prog_bind_le; [apply Image_open_le|]. intros im w1 _.
  apply prog_bind_le; [apply lift_le|]. intros bg w2 _.
  apply prog_bind_le; [apply lift_le|]. intros path w3 Hpath.
  unfold lift in Hpath. injection Hpath as Hpath _.
  apply save_jpeg_le. by eapply output_path_jpg.
Qed.

Lemma warn_or_mkdir_le (present : bool) msg d w :
  world_le w ((if present then print msg else os_mkdir d) w).2.
Proof. destruct present; [apply print_le|apply os_mkdir_le]. Qed.

Lemma written_for_weaken (images images' : gmap string PIL.Image) d f item :
  images ⊆ images' → written_for images d f item → written_for images' d f item.
Proof.
  intros Hsub (im & bg & Him & Hrest). exists im, bg.
  split; [by eapply lookup_weaken|done].
Qed.

(** What a successful [save] did. *)
Lemma save_jpeg_ok path im q w u w' :
  save_jpeg path im q w = (Ok u, w') →
  w' = mkWorld (add_entry (os_path_dirname path) (os_path_basename path)
                          (w_dirs w))
               (delete path (w_images w))
               (<[path := (im, q)]> (w_saved w)) (w_stdout w) (w_rng w).
Proof.
  unfold save_jpeg. destruct (bool_decide _); [done|].
  destruct (_ || _); [by intros [= <-]|]. by destruct (_ || _).
Qed.

(** What a successful call of [deborder_and_save] did. *)
Lemma deborder_and_save_ok f d w u w' :
  deborder_and_save f d w = (Ok u, w') →
  ∃ item, written_for (w_images w) d f item ∧
          w_images w' = delete item.1 (w_images w) ∧
          w_saved w' = <[item.1 := item.2]> (w_saved w).
Proof.
  unfold deborder_and_save. intros Hrun.
  apply prog_bind_ok in Hrun as (im & w1 & Ho & Hrun).
  unfold Image_open in Ho.
  destruct (w_images w !! f) as [im'|] eqn:Him; [|by destruct (bool_decide _)].
  injection Ho as -> <-.
  apply prog_bind_ok in Hrun as (bg & w2 & Hd & Hrun).
  unfold lift in Hd. injection Hd as Hd <-.
  apply prog_bind_ok in Hrun as (path & w3 & Hp & Hrun).
  unfold lift in Hp. injection Hp as Hp <-.
  apply save_jpeg_ok in Hrun as ->.
  exists (path, (bg, 100)). split; [by exists im, bg|done].
Qed.

Lemma save_loop_ok d names : ∀ w w',
  for_each names (λ f, deborder_and_save f d) w = (Ok tt, w') →
  ∃ items, Forall2 (written_for (w_images w) d) names items ∧
           w_images w' ⊆ w_images w ∧
           w_saved w' = save_all (w_saved w) items.
Proof.
  induction names as [|f names IH]; intros w w' Hrun.
  - injection Hrun as <-. exists []. split; [constructor|done].
  - cbn [for_each] in Hrun. apply prog_bind_ok in Hrun as (u & w1 & Hf & Hrun).
    apply deborder_and_save_ok in Hf as (item & Hitem & Hi1 & Hs1).
    apply IH in Hrun as (items & Hitems & Hi & Hs).
    rewrite Hi1 in Hitems, Hi. rewrite Hs1 in Hs.
    assert (Hdel : delete item.1 (w_images w) ⊆ w_images w)
      by apply delete_subseteq.
    exists (item :: items). split.
    { constructor; [done|].
      eapply Forall2_impl; [exact Hitems|].
      intros f' item'. by apply written_for_weaken. }
    split; [by etrans|done].
Qed.

Lemma warn_or_mkdir_ok (present : bool) msg d w u w' :
  (if present then print msg else os_mkdir d) w = (Ok u, w') →
  w_images w' = w_images w ∧ w_saved w' = w_saved w.
Proof.
  destruct u, present.
  - unfold print. by intros [= <-].
  - unfold os_mkdir. destruct (_ || _); [done|]. by intros [= <-].
Qed.

(** One turn of the loop of lines 95-104, when it ends normally. *)
Lemma split_body_ok (s : splits) (d msg1 msg2 split : string) w w' :
  (present ← os_path_exists d;
   _ ← (if present : bool then print msg1 else os_mkdir d);
   _ ← print msg2;
   names ← lift (filenames_of s split);
   for_each names (λ filename, deborder_and_save filename d)) w = (Ok tt, w') →
  ∃ names items,
    filenames_of s split = Ok names ∧
    Forall2 (written_for (w_images w) d) names items ∧
    w_images w' ⊆ w_images w ∧
    w_saved w' = save_all (w_saved w) items.
Proof.
  intros Hrun.
  apply prog_bind_ok in Hrun as (present & w1 & Hex & Hrun).
  unfold os_path_exists in Hex. injection Hex as _ <-.
  apply prog_bind_ok in Hrun as (u & w2 & Hmk & Hrun).
  apply warn_or_mkdir_ok in Hmk as [Hi2 Hs2].
  apply prog_bind_ok in Hrun as (u' & w3 & Hpr & Hrun).
  destruct u'. unfold print in Hpr. injection Hpr as <-.
  apply prog_bind_ok in Hrun as (names & w4 & Hn & Hrun).
  unfold lift in Hn. injection Hn as Hn <-.
  apply save_loop_ok in Hrun as (items & Hitems & Hi & Hs). cbn in Hitems, Hi, Hs.
  exists names, items. rewrite Hi2 in Hitems, Hi. rewrite Hs2 in Hs. done.
Qed.

Lemma save_all_app saved a b :
  save_all (save_all saved a) b = save_all saved (a ++ b).
Proof. unfold save_all. by rewrite foldl_app. Qed.

(** A name written with one content only holds that content at the end. *)
Lemma save_all_lookup saved items k v :
  (k, v) ∈ items → (∀ v', (k, v') ∈ items → v' = v) →
  save_all saved items !! k = Some v.
Proof.
  induction items as [|[k0 v0] items IH] using rev_ind;
    [by intros ?%elem_of_nil|].
  intros Hin Huniq. unfold save_all. rewrite foldl_snoc. cbn [fst snd].
  destruct (decide (k0 = k)) as [->|Hne].
  - rewrite lookup_insert_eq. f_equal. apply Huniq.
    apply elem_of_app. right. by apply list_elem_of_singleton.
  - rewrite lookup_insert_ne by done. apply IH.
    + apply elem_of_app in Hin as [?|Hin]; [done|].
      apply list_elem_of_singleton in Hin. congruence.
    + intros v' Hv'. apply Huniq, elem_of_app. by left.
Qed.

Lemma Forall2_elem_of_l {A B} (P : A → B → Prop) l k x :
  Forall2 P l k → x ∈ l → ∃ y, y ∈ k ∧ P x y.
Proof.
  intros HF [i Hi]%list_elem_of_lookup_1.
  destruct (Forall2_lookup_l _ _ _ _ _ HF Hi) as (y & Hy & HP).
  exists y. split; [by eapply list_elem_of_lookup_2|done].
Qed.

Lemma Forall2_elem_of_r {A B} (P : A → B → Prop) l k y :
  Forall2 P l k → y ∈ k → ∃ x, x ∈ l ∧ P x y.
Proof.
  intros HF [i Hi]%list_elem_of_lookup_1.
  destruct (Forall2_lookup_r _ _ _ _ _ HF Hi) as (x & Hx & HP).
  exists x. split; [by eapply list_elem_of_lookup_2|done].
Qed.

Lemma format_dataset_message (x : string) :
  Str.format "Couldn't find the dataset at {}" x
  = "Couldn't find the dataset at " +:+ x.
Proof.
  unfold Str.format. apply chars_inj. rewrite chars_of_chars, chars_app.
  simpl. by rewrite app_nil_r.
Qed.

(** A file written for a [.png] entry is not overwritten with anything
    else by the calls made for the other entries and splits. *)
Lemma written_lookup (data_dir : string) (entries : list string)
    (images : gmap string PIL.Image) (saved : gmap string (PIL.Image * Z))
    (items : list (string * (PIL.Image * Z))) (d f : string)
    (item : string * (PIL.Image * Z)) :
  Forall (λ e, "/"%char ∉ Str.chars e) entries →
  (∀ item', item' ∈ items →
     ∃ d' f', f' ∈ png_filenames data_dir entries ∧
              written_for images d' f' item') →
  f ∈ png_filenames data_dir entries → item ∈ items →
  written_for images d f item →
  save_all saved items !! item.1 = Some item.2.
Proof.
  intros Hall Horigin Hf Hitem (im & bg & Him & Hbg & Hpath & Hval).
  destruct item as [k v]; cbn in *. apply save_all_lookup; [done|].
  intros v' Hv'.
  destruct (Horigin _ Hv')
    as (d' & f' & Hf' & (im' & bg' & Him' & Hbg' & Hpath' & Hval')).
  cbn in *.
  destruct (png_filenames_entry _ _ _ Hall Hf) as (e & -> & He & Hpng).
  destruct (png_filenames_entry _ _ _ Hall Hf') as (e' & -> & He' & Hpng').
  assert (e = e') by (eapply output_path_same_entry; eauto). subst e'.
  congruence.
Qed.

End Worlds.

(** ** The properties *)

(** Property X1.  No file is lost or duplicated by the split.  For every listing a
    Python process can hold (fewer than [2^63] names, repeated names
    allowed), the three splits put together are a permutation of the [.png]
    filenames: the float boundaries are always ordered, whatever their
    rounding. *)
Theorem splits_keep_every_file {G : Type} `{PyRuntime G} (g : G)
    (seed data_dir : string) (entries : list string) (sd : Z) :
  int_of_str seed = Ok sd →
  Z.of_nat (length (png_filenames data_dir entries)) < 2 ^ 63 →
  ∃ s, (build_splits g seed data_dir entries).1 = Ok s ∧
       train_filenames s ++ dev_filenames s ++ test_filenames s
         ≡ₚ png_filenames data_dir entries.
Proof.
  intros Hsd HN.
  destruct (build_splits_shuffled g seed sd data_dir entries Hsd)
    as (shuffled & g' & Hp & _ & ->).
  destruct (partition_concat shuffled) as (s & Hs & Hcat).
  { by rewrite Hp. }
  exists s. split; [done|]. by rewrite Hcat.
Qed.

Lemma splits_keep_every_file_witness :
  ∃ s, (build_splits (0 : Z) "1" "data" Demo.ten_entries).1 = Ok s ∧
       train_filenames s ++ dev_filenames s ++ test_filenames s
         ≡ₚ png_filenames "data" Demo.ten_entries.
Proof.
  exact (splits_keep_every_file (0 : Z) "1" "data" Demo.ten_entries 1
           eq_refl eq_refl).
Defined.

(** Property X2.  Only [.png] entries are processed.  Every filename in a
    split ends with [.png] and is [os.path.join(data_dir, entry)] for an
    entry of the listing that ends with [.png]. *)
Theorem splits_hold_png_entries {G : Type} `{PyRuntime G} (g : G)
    (seed data_dir : string) (entries : list string) (s : splits) (f : string) :
  (build_splits g seed data_dir entries).1 = Ok s →
  f ∈ train_filenames s ++ dev_filenames s ++ test_filenames s →
  Str.endswith f ".png" = true ∧
  ∃ entry, entry ∈ entries ∧ Str.endswith entry ".png" = true ∧
           f = path_join data_dir entry.
Proof.
  intros Hs Hf.
  pose proof (build_splits_subseteq g seed data_dir entries s f Hs Hf) as Hin.
  unfold png_filenames in Hin.
  apply list_elem_of_fmap in Hin as (entry & -> & [Hpng Hentry]%list_elem_of_filter).
  split; [by apply path_join_endswith|]. by exists entry.
Qed.

Lemma splits_hold_png_entries_witness :
  Str.endswith "data/img0.png" ".png" = true ∧
  ∃ entry, entry ∈ Demo.ten_entries ∧ Str.endswith entry ".png" = true ∧
           "data/img0.png" = path_join "data" entry.
Proof.
  destruct (build_splits (0 : Z) "1" "data" Demo.ten_entries) as [r g] eqn:E.
  vm_compute in E. injection E as <- _.
  eapply (splits_hold_png_entries (0 : Z) "1" "data" Demo.ten_entries).
  - vm_compute. reflexivity.
  - apply (bool_decide_unpack _). vm_compute. exact I.
Defined.

(** Property X3.  The file saved for an entry [stem.png] of the listing is
    [stem.jpg] in the output directory, and two entries with different stems
    are saved under different names. *)
Theorem output_path_of_entry (data_dir output_dir stem stem' : string) :
  "/"%char ∉ Str.chars stem → "/"%char ∉ Str.chars stem' →
  output_path output_dir (path_join data_dir (stem +:+ ".png"))
  = Ok (join_prefix output_dir +:+ stem +:+ ".jpg") ∧
  (output_path output_dir (path_join data_dir (stem +:+ ".png"))
   = output_path output_dir (path_join data_dir (stem' +:+ ".png")) →
   stem = stem').
Proof.
  intros Hs Hs'. split; [by apply output_path_entry|].
  rewrite !output_path_entry by done. intros [= E]. by eapply jpg_name_inj.
Qed.

Lemma output_path_of_entry_witness :
  output_path "out/train_spec" (path_join "data" ("img3" +:+ ".png"))
  = Ok (join_prefix "out/train_spec" +:+ "img3" +:+ ".jpg") ∧
  (output_path "out/train_spec" (path_join "data" ("img3" +:+ ".png"))
   = output_path "out/train_spec" (path_join "data" ("img4" +:+ ".png")) →
   "img3" = "img4").
Proof.
  apply output_path_of_entry; apply (bool_decide_unpack _); vm_compute; exact I.
Defined.

(** Property X4.  Line 55 computes a name for every filename, with or
    without a directory or an extension; the name ends with [jpg] and never
    with [.png], so a [.png] input is never the file that is written. *)
Theorem output_path_is_jpg (output_dir filename : string) :
  ∃ path, output_path output_dir filename = Ok path ∧
          Str.endswith path "jpg" = true ∧
          Str.endswith path ".png" = false ∧
          (Str.endswith filename ".png" = true → path ≠ filename).
Proof.
  destruct (basename_chars filename) as (w & Hname & _ & _).
  unfold output_path. rewrite Hname. cbn [mbind outcome_bind].
  eexists. split; [reflexivity|].
  set (front := path_join output_dir (Str.slice None (Some (-3)) (Str.of_chars w))).
  assert (Hjpg : Str.endswith (front +:+ "jpg") "jpg" = true).
  { apply bool_decide_eq_true. rewrite chars_app. by apply suffix_app_r. }
  assert (Hpng : Str.endswith (front +:+ "jpg") ".png" = false).
  { apply bool_decide_eq_false. rewrite chars_app. intros [k Hk].
    change (Str.chars "jpg") with ["j"; "p"; "g"]%char in Hk.
    change (Str.chars ".png") with (["."] ++ ["p"; "n"; "g"])%char in Hk.
    rewrite app_assoc in Hk. apply app_inj_2 in Hk as [_ Hk]; [|done].
    discriminate. }
  split; [done|]. split; [done|].
  intros Hf Heq. rewrite Heq in Hpng. congruence.
Qed.

(** Property X5.  For a loaded image with at least one pixel, [trim]
    returns [None] exactly when no pixel stands out from the corner pixel:
    no alpha more than 100 away from the corner's in an [LA] or [RGBA]
    image, whatever the colours, and no band more than 100 away in an [L]
    or [RGB] image.  [deborder_and_save] then stops with [AttributeError]
    at [image.load()]. *)
Theorem trim_none_iff (im : PIL.Image) :
  PIL.wf_image im → (0 < PIL.im_width im)%nat → (0 < PIL.im_height im)%nat →
  (trim im = Ok None ↔
   ∀ x y, (x < PIL.im_width im)%nat → (y < PIL.im_height im)%nat →
          stands_out im x y = false) ∧
  (trim im = Ok None → deborder im = Raise AttributeError).
Proof.
  intros Hwf Hw Hh.
  destruct (amplified_difference_pixels im Hwf Hw Hh)
    as (diff & corner & Hdiff & _).
  pose proof (counts_at_amplified im diff Hwf Hw Hh Hdiff) as Hnz.
  pose proof (trim_cases im diff Hdiff) as Hc.
  split.
  - destruct (PIL.getbbox diff) as [[[[x0 y0] x1] y1]|].
    + destruct Hc as [Htrim (Hx & _ & _ & (y & Hy & Hdata) & _)].
      split; [by rewrite Htrim|]. intros Hnone. exfalso.
      rewrite Hnz, Hnone in Hdata by lia. done.
    + destruct Hc as [Htrim Hnone]. split; [|done].
      intros _ x y Hx Hy. rewrite <- Hnz. by apply Hnone.
  - intros Htrim. unfold deborder. by rewrite Htrim.
Qed.

(** [Demo.opaque] holds two colours but one alpha: nothing stands out. *)
Lemma trim_none_iff_witness :
  (trim Demo.opaque = Ok None ↔
   ∀ x y, (x < 2)%nat → (y < 1)%nat → stands_out Demo.opaque x y = false) ∧
  (trim Demo.opaque = Ok None → deborder Demo.opaque = Raise AttributeError).
Proof.
  apply (trim_none_iff Demo.opaque).
  - apply (bool_decide_unpack _). vm_compute. exact I.
  - simpl. lia.
  - simpl. lia.
Defined.

(** Property X6.  An image without pixels (width or height 0) makes
    [im.getpixel((0, 0))] on line 28 raise [IndexError], in [trim] and so in
    the pipeline. *)
Theorem trim_without_pixels (im : PIL.Image) :
  PIL.im_width im = 0%nat ∨ PIL.im_height im = 0%nat →
  trim im = Raise IndexError ∧ deborder im = Raise IndexError.
Proof.
  intros Hsize.
  assert (Hget : PIL.getpixel im (0, 0) = Raise IndexError).
  { unfold PIL.getpixel. cbn [fst snd]. change (0 <? 0) with false. cbv iota.
    change (0 <=? 0) with true. cbn [andb].
    destruct Hsize as [-> | ->]; cbn; [done|].
    by destruct (0 <? Z.of_nat (PIL.im_width im)). }
  assert (Htrim : trim im = Raise IndexError).
  { unfold trim, amplified_difference. by rewrite Hget. }
  split; [done|]. unfold deborder. by rewrite Htrim.
Qed.

Lemma trim_without_pixels_witness :
  trim (PIL.mkImage PIL.RGBA 0 0 []) = Raise IndexError ∧
  deborder (PIL.mkImage PIL.RGBA 0 0 []) = Raise IndexError.
Proof.
  apply (trim_without_pixels (PIL.mkImage PIL.RGBA 0 0 [])). by left.
Defined.

(** Property X7.  An image of a mode other than [RGBA] in which [trim]
    finds a box stops the pipeline with [IndexError] at [image.split()[3]]
    (line 53): [L], [LA] and [RGB] images have fewer than four bands. *)
Theorem deborder_needs_alpha (opened t : PIL.Image) :
  PIL.im_mode opened ≠ PIL.RGBA →
  trim opened = Ok (Some t) →
  deborder opened = Raise IndexError.
Proof.
  intros Hmode Htrim. destruct (trim_is_crop opened t Htrim) as [box ->].
  unfold deborder. rewrite Htrim. cbn [mbind outcome_bind the_image].
  unfold white_background, PIL.new. cbn [length PIL.bands].
  rewrite bool_decide_eq_true_2 by done. cbn [mbind outcome_bind].
  unfold py_index, PIL.split. rewrite length_fmap, length_seq, crop_mode.
  by destruct (PIL.im_mode opened).
Qed.

Lemma deborder_needs_alpha_witness :
  deborder Demo.grey_strip = Raise IndexError.
Proof.
  apply (deborder_needs_alpha Demo.grey_strip
           (PIL.crop Demo.grey_strip (2, 0, 3, 1))).
  - discriminate.
  - vm_compute. reflexivity.
Defined.

(** Property X8.  The composite of lines 52-53.  For an [RGBA] image in
    which [trim] finds a box, the pipeline yields an [RGB] image of the size
    of the trimmed image; where the trimmed image holds [(r, g, b, a)], the
    composite holds the blend of white and [(r, g, b)] weighted by [a]: the
    colour itself under an opaque pixel, white under a transparent one. *)
Theorem deborder_composite (opened t : PIL.Image) :
  PIL.im_mode opened = PIL.RGBA →
  trim opened = Ok (Some t) →
  ∃ out, deborder opened = Ok out ∧
         PIL.im_mode out = PIL.RGB ∧ PIL.size out = PIL.size t ∧
         ∀ (x y : nat) (r g b a : Z),
           (x < PIL.im_width t)%nat → (y < PIL.im_height t)%nat →
           PIL.pixel_at t x y = Some [r; g; b; a] →
           PIL.pixel_at out x y
           = Some [PIL.blend8 a 255 r; PIL.blend8 a 255 g; PIL.blend8 a 255 b] ∧
           (0 ≤ r ≤ 255 → 0 ≤ g ≤ 255 → 0 ≤ b ≤ 255 →
            (a = 255 → PIL.pixel_at out x y = Some [r; g; b]) ∧
            (a = 0 → PIL.pixel_at out x y = Some [255; 255; 255])).
Proof.
  intros Hmode Htrim.
  assert (Hmt : PIL.im_mode t = PIL.RGBA).
  { destruct (trim_is_crop opened t Htrim) as [box ->]. by rewrite crop_mode. }
  unfold deborder. rewrite Htrim. cbn [mbind outcome_bind the_image].
  unfold white_background, PIL.new. cbn [length PIL.bands].
  rewrite bool_decide_eq_true_2 by done. cbn [mbind outcome_bind].
  assert (Hsplit : py_index (PIL.split t) 3 = Ok (PIL.band_image t 3)).
  { unfold PIL.split. rewrite Hmt. reflexivity. }
  rewrite Hsplit. cbn [mbind outcome_bind].
  unfold PIL.paste. cbn [PIL.im_mode PIL.im_width PIL.im_height PIL.im_rows
                         PIL.size fst snd PIL.band_image].
  rewrite Hmt. cbn [PIL.pixelsize PIL.mask_band].
  rewrite (bool_decide_eq_false_2 (PIL.RGB = PIL.RGBA)) by done.
  rewrite (bool_decide_eq_true_2 (PIL.RGB = PIL.RGB)) by done.
  rewrite (bool_decide_eq_true_2 (PIL.RGBA = PIL.RGBA)) by done.
  cbn [andb]. rewrite Hmt. cbn [PIL.pixelsize].
  rewrite (bool_decide_eq_true_2 (4 = 4)%nat) by done.
  rewrite (bool_decide_eq_true_2 (PIL.size _ = PIL.size t)) by done.
  cbn [negb].
  eexists. split; [reflexivity|]. split; [done|]. split; [done|].
  intros x y r g b a Hx Hy Hp.
  match goal with |- PIL.pixel_at ?o x y = _ ∧ _ =>
    assert (Hout : PIL.pixel_at o x y
      = Some [PIL.blend8 a 255 r; PIL.blend8 a 255 g; PIL.blend8 a 255 b])
  end.
  { erewrite pixel_at_imap; [|by apply lookup_replicate_2..].
    fold (PIL.band_image t 3). rewrite pixel_at_band_image, Hp. reflexivity. }
  split; [exact Hout|]. intros Hr Hg Hb. split; intros ->.
  - rewrite Hout. by rewrite !blend8_opaque.
  - rewrite Hout. by rewrite !blend8_transparent.
Qed.

Lemma deborder_composite_witness :
  ∃ out, deborder Demo.framed = Ok out ∧
         PIL.im_mode out = PIL.RGB ∧ PIL.size out = (1%nat, 1%nat) ∧
         PIL.pixel_at out 0 0 = Some [10; 20; 30].
Proof.
  destruct (deborder_composite Demo.framed (PIL.crop Demo.framed (2, 1, 3, 2)))
    as (out & Hout & Hmode & Hsize & Hpix).
  - reflexivity.
  - vm_compute. reflexivity.
  - exists out. split; [done|]. split; [done|]. split; [done|].
    destruct (Hpix 0%nat 0%nat 10 20 30 255) as [_ Hop].
    + simpl. lia.
    + simpl. lia.
    + vm_compute. reflexivity.
    + apply Hop; lia.
Defined.


(** A directory that is not there: nothing is written. *)
Lemma save_in_missing_directory :
  deborder_and_save "data/a.png" "nodir" Demo.small_world
  = (Raise FileNotFoundError, Demo.small_world).
Proof. vm_compute. reflexivity. Qed.

(** Property X10.  Without the directory [data_dir] the script stops at
    the assertion of line 62, with the message that names the directory and
    before anything is created or printed. *)
Theorem main_missing_data_dir {G : Type} `{PyRuntime G} (args : arguments)
    (w : world G) :
  w_dirs w !! data_dir args = None →
  main args w
  = (Raise (AssertionError ("Couldn't find the dataset at " +:+ data_dir args)),
     w).
Proof.
  intros Hd. unfold main. rewrite bind_run. unfold os_path_isdir. rewrite Hd.
  rewrite bool_decide_eq_false_2 by (by intros [? ?]).
  rewrite bind_run. unfold lift. by rewrite format_dataset_message.
Qed.

Lemma main_missing_data_dir_witness :
  main (mkArguments "nowhere" "out" "1") Demo.small_world
  = (Raise (AssertionError ("Couldn't find the dataset at " +:+ "nowhere")),
     Demo.small_world).
Proof.
  apply (main_missing_data_dir (mkArguments "nowhere" "out" "1")
           Demo.small_world).
  vm_compute. reflexivity.
Defined.

(** Property X11.  A seed that [int] rejects stops the script at line 74
    with [int]'s exception: the directory has been listed, but no directory
    is created and nothing is printed or saved. *)
Theorem main_bad_seed {G : Type} `{PyRuntime G} (args : arguments)
    (w : world G) (entries : list string) (e : exn) :
  w_dirs w !! data_dir args = Some entries →
  int_of_str (seed args) = Raise e →
  main args w = (Raise e, w).
Proof.
  intros Hd He. unfold main. rewrite bind_run. unfold os_path_isdir. rewrite Hd.
  rewrite bool_decide_eq_true_2 by by eexists.
  rewrite bind_run. unfold lift at 1. rewrite bind_run. unfold os_listdir.
  rewrite Hd. rewrite bind_run. unfold build_splits. rewrite He.
  by destruct w.
Qed.

Lemma main_bad_seed_witness :
  main (mkArguments "data" "out" "x") Demo.small_world
  = (Raise ValueError, Demo.small_world).
Proof.
  apply (main_bad_seed (mkArguments "data" "out" "x") Demo.small_world
           ["a.png"; "b.png"] ValueError).
  - vm_compute. reflexivity.
  - reflexivity.
Defined.

(** Property X12.  The script touches no file but those it names
    [...jpg] (line 55).  Whether it ends normally or with an exception,
    every image file with another name, so every [.png] it reads, is what it
    was; every directory is still a directory and lists what it listed
    before, next to what was added; every file saved before is still a
    saved file, possibly written again; and the console output has only
    grown. *)
Theorem main_touches_only_jpg {G : Type} `{PyRuntime G} (args : arguments)
    (w : world G) :
  world_le w (main args w).2.
Proof.
  unfold main.
  apply prog_bind_le; [apply os_path_isdir_le|]. intros isdir w1 _.
  apply prog_bind_le; [apply lift_le|]. intros _ w2 _.
  apply prog_bind_le; [apply os_listdir_le|]. intros entries w3 _.
  apply prog_bind_le.
  { destruct (build_splits _ _ _ _) as [r g]. simpl.
    split; [done|]. split; [|by split]. intros p l Hl. by exists l. }
  intros filenames w4 _.
  apply prog_bind_le; [apply os_path_exists_le|]. intros present w5 _.
  apply prog_bind_le; [apply warn_or_mkdir_le|]. intros _ w6 _.
  apply prog_bind_le; [|intros _ w7 _; apply print_le].
  apply for_each_le. intros split w7.
  apply prog_bind_le; [apply os_path_exists_le|]. intros present' w8 _.
  apply prog_bind_le; [apply warn_or_mkdir_le|]. intros _ w9 _.
  apply prog_bind_le; [apply print_le|]. intros _ w10 _.
  apply prog_bind_le; [apply lift_le|]. intros names w11 _.
  apply for_each_le. intros f. apply deborder_and_save_le.
Qed.

(** A file already at an output path is replaced, and the directories list
    what was added. *)
Lemma main_replaces_output_file :
  w_images Demo.stale_output !! "out/train_spec/b.jpg" = Some Demo.blank ∧
  w_images (main Demo.two_pictures_arguments Demo.stale_output).2
    !! "out/train_spec/b.jpg" = None ∧
  w_saved (main Demo.two_pictures_arguments Demo.stale_output).2
    !! "out/train_spec/b.jpg"
  = Some (PIL.mkImage PIL.RGB 1 1 [ [[0; 0; 0]] ], 100) ∧
  w_dirs (main Demo.two_pictures_arguments Demo.stale_output).2 !! "out"
  = Some ["train_spec"; "dev_spec"; "test_spec"] ∧
  w_dirs (main Demo.two_pictures_arguments Demo.stale_output).2
    !! "out/train_spec" = Some ["b.jpg"].
Proof. vm_compute. done. Qed.

(** Property X13.  When the script ends normally on a listing whose
    names hold no [/], the splits were computed, the last line printed is
    [Done building dataset], and for every filename of every split the file
    at its output path in [output_dir/<split>_spec] holds the composite of
    that very image, saved with quality 100: no other file of the run was
    saved under the same name. *)
Theorem main_saves_every_split {G : Type} `{PyRuntime G} (args : arguments)
    (w w' : world G) (entries : list string) :
  w_dirs w !! data_dir args = Some entries →
  Forall (λ e, "/"%char ∉ Str.chars e) entries →
  main args w = (Ok tt, w') →
  ∃ s, (build_splits (w_rng w) (seed args) (data_dir args) entries).1 = Ok s ∧
       last (w_stdout w') = Some "Done building dataset" ∧
       ∀ split names filename,
         split ∈ ["train"; "dev"; "test"] →
         filenames_of s split = Ok names → filename ∈ names →
         ∃ im bg path,
           w_images w !! filename = Some im ∧ deborder im = Ok bg ∧
           output_path (split_dir args split) filename = Ok path ∧
           w_saved w' !! path = Some (bg, 100).
Proof.
  intros Hd Hall Hrun. unfold main in Hrun.
  apply prog_bind_ok in Hrun as (isdir & w0 & Hisdir & Hrun).
  unfold os_path_isdir in Hisdir. injection Hisdir as _ <-.
  apply prog_bind_ok in Hrun as (u & w0 & Hassert & Hrun).
  unfold lift in Hassert. injection Hassert as _ <-.
  apply prog_bind_ok in Hrun as (entries' & w0 & Hls & Hrun).
  unfold os_listdir in Hls. rewrite Hd in Hls. injection Hls as <- <-.
  apply prog_bind_ok in Hrun as (s & w1 & Hsplit & Hrun).
  destruct (build_splits (w_rng w) (seed args) (data_dir args) entries)
    as [r g] eqn:Hbuild.
  injection Hsplit as -> <-.
  apply prog_bind_ok in Hrun as (present & w2 & Hex & Hrun).
  unfold os_path_exists in Hex. injection Hex as _ <-.
  apply prog_bind_ok in Hrun as (u' & w2 & Hmk & Hrun).
  apply warn_or_mkdir_ok in Hmk as [Hi2 Hs2]. cbn in Hi2, Hs2.
  apply prog_bind_ok in Hrun as (u'' & w3 & Hloop & Hrun).
  destruct u''. cbn [for_each] in Hloop.
  apply prog_bind_ok in Hloop as ([] & wa & Htrain & Hloop).
  apply prog_bind_ok in Hloop as ([] & wb & Hdev & Hloop).
  apply prog_bind_ok in Hloop as ([] & wc & Htest & Hloop).
  injection Hloop as <-.
  apply split_body_ok in Htrain as (n1 & it1 & Hn1 & HF1 & Hi1 & Hs1).
  apply split_body_ok in Hdev as (n2 & it2 & Hn2 & HF2 & Hib & Hsb).
  apply split_body_ok in Htest as (n3 & it3 & Hn3 & HF3 & Hic & Hsc).
  unfold print in Hrun. injection Hrun as <-.
  rewrite Hi2 in HF1, Hi1.
  apply (Forall2_impl _ (written_for (w_images w)
           (path_join (output_dir args) (Str.format "{}_spec" "dev")))) in HF2;
    [|intros ??; by apply written_for_weaken].
  apply (Forall2_impl _ (written_for (w_images w)
           (path_join (output_dir args) (Str.format "{}_spec" "test")))) in HF3;
    [|intros ??; apply written_for_weaken; by etrans].
  assert (Hsaved : w_saved wc = save_all (w_saved w) (it1 ++ it2 ++ it3)).
  { by rewrite Hsc, Hsb, Hs1, Hs2, !save_all_app. }
  exists s. split; [done|]. split; [apply last_snoc|].
  cbn [w_saved]. rewrite Hsaved.
  assert (Hsub : ∀ split names f, filenames_of s split = Ok names → f ∈ names →
                 f ∈ png_filenames (data_dir args) entries).
  { intros split names f Hn Hf.
    eapply build_splits_subseteq; [by rewrite Hbuild|].
    by eapply filenames_of_elem. }
  assert (Horigin : ∀ item, item ∈ it1 ++ it2 ++ it3 →
            ∃ d f, f ∈ png_filenames (data_dir args) entries ∧
                   written_for (w_images w) d f item).
  { intros item Hitem. rewrite !elem_of_app in Hitem.
    destruct Hitem as [Hitem|[Hitem|Hitem]].
    - destruct (Forall2_elem_of_r _ _ _ _ HF1 Hitem) as (f & Hf & Hw). eauto.
    - destruct (Forall2_elem_of_r _ _ _ _ HF2 Hitem) as (f & Hf & Hw). eauto.
    - destruct (Forall2_elem_of_r _ _ _ _ HF3 Hitem) as (f & Hf & Hw). eauto. }
  intros split names f Hsplit Hn Hf.
  assert (Hitem : ∃ item, item ∈ it1 ++ it2 ++ it3 ∧
                          written_for (w_images w) (split_dir args split) f item).
  { rewrite !elem_of_cons in Hsplit.
    destruct Hsplit as [->|[->|[->|Hnil%elem_of_nil]]]; [| | |done].
    - rewrite Hn1 in Hn. injection Hn as <-.
      destruct (Forall2_elem_of_l _ _ _ _ HF1 Hf) as (item & Hitem & Hw).
      exists item. rewrite !elem_of_app. auto.
    - rewrite Hn2 in Hn. injection Hn as <-.
      destruct (Forall2_elem_of_l _ _ _ _ HF2 Hf) as (item & Hitem & Hw).
      exists item. rewrite !elem_of_app. auto.
    - rewrite Hn3 in Hn. injection Hn as <-.
      destruct (Forall2_elem_of_l _ _ _ _ HF3 Hf) as (item & Hitem & Hw).
      exists item. rewrite !elem_of_app. auto. }
  destruct Hitem as (item & Hitem & Hw).
  pose proof (written_lookup (data_dir args) entries (w_images w) (w_saved w)
                _ _ f item Hall Horigin (Hsub _ _ _ Hn Hf) Hitem Hw) as Hlook.
  destruct Hw as (im & bg & Him & Hbg & Hpath & Hval).
  exists im, bg, item.1. rewrite Hlook, Hval. done.
Qed.

Lemma main_saves_every_split_witness :
  ∃ bg, w_saved (main Demo.two_pictures_arguments Demo.two_pictures).2
          !! "out/train_spec/b.jpg" = Some (bg, 100) ∧
        deborder Demo.dot = Ok bg.
Proof.
  destruct (main_saves_every_split Demo.two_pictures_arguments
              Demo.two_pictures
              (main Demo.two_pictures_arguments Demo.two_pictures).2
              ["a.png"; "notes.txt"; "b.png"])
    as (s & Hs & _ & Hall).
  - vm_compute. reflexivity.
  - repeat constructor; apply (bool_decide_unpack _); vm_compute; exact I.
  - vm_compute. reflexivity.
  - vm_compute in Hs. injection Hs as <-.
    destruct (Hall "train" ["data/b.png"] "data/b.png")
      as (im & bg & path & Him & Hbg & Hpath & Hsaved).
    + apply (bool_decide_unpack _). vm_compute. exact I.
    + vm_compute. reflexivity.
    + apply (bool_decide_unpack _). vm_compute. exact I.
    + vm_compute in Him. injection Him as <-.
      vm_compute in Hpath. injection Hpath as <-.
      exists bg. split; [exact Hsaved|exact Hbg].
Defined.
